(** * LocalJSONDB: a JSON file used as a record store

    A shallow embedding of [src/index.js] (class [LocalJSONDB]) and of the
    part of the platform it runs on: JSON values, [JSON.parse],
    [JSON.stringify] and the three synchronous [fs] calls the class makes.

    Layout:
    - [JSON]: values, the serialiser, the parser, and the round trip
      between them;
    - [Js]: completions (return or throw), property access, strict
      equality, spread, and the array methods used by the class;
    - [Fs]: the file system, the content of the files by path and the
      paths at which a file can be created;
    - [LocalJSONDB]: the class, method by method;
    - the properties of the class. *)

From Stdlib Require Import ZArith Ascii.
From stdpp Require Import gmap strings list fin_maps.

Local Open Scope Z_scope.

(** ** Characters that cannot be written inside a string literal here *)

Abbreviation dquote := ("034"%char) (only parsing).
Abbreviation backslash := ("092"%char) (only parsing).
Abbreviation char_bs := ("008"%char) (only parsing).
Abbreviation char_tab := ("009"%char) (only parsing).
Abbreviation char_lf := ("010"%char) (only parsing).
Abbreviation char_ff := ("012"%char) (only parsing).
Abbreviation char_cr := ("013"%char) (only parsing).

Module JSON.

(** JSON values as [JSON.parse] builds them.

    - Numbers are the integers: the identifiers of the store are
      [Date.now()] readings, and a double holds the integers up to 2^53
      exactly. Numbers with a fraction are not modelled.
    - A JS object is a finite map from property names to values: two
      objects with the same properties are equal, whatever the order in
      which the properties were created.
    - Characters are the 8-bit characters of [ascii], one per code unit. *)
#[warnings="-register-all"]
Inductive value : Type :=
  | JNull
  | JBool (b : bool)
  | JNumber (n : Z)
  | JString (s : string)
  | JArray (l : list value)
  | JObject (m : gmap string value).

(** *** [JSON.stringify(value, null, space)] *)

Definition digit_char (d : Z) : ascii := ascii_of_N (Z.to_N (48 + d)).

(** The decimal digits of [n], most significant first, in front of [k].
    The fuel is the binary size of [n], which bounds the number of its
    decimal digits. *)
Fixpoint print_digits (fuel : nat) (n : Z) (k : string) : string :=
  match fuel with
  | O => k
  | S fuel =>
      if n <? 10 then String (digit_char n) k
      else print_digits fuel (n / 10) (String (digit_char (n mod 10)) k)
  end.

Definition print_nat (n : Z) (k : string) : string :=
  print_digits (S (Z.to_nat (Z.log2 n))) n k.

Definition print_number (n : Z) (k : string) : string :=
  if n <? 0 then String "-" (print_nat (- n) k) else print_nat n k.

Definition hex_char (d : N) : ascii :=
  ascii_of_N (if (d <? 10)%N then 48 + d else 87 + d)%N.

(** QuoteJSONString: the two-character escapes, [\u00xx] for the other
    control characters, every other character as it is. *)
Definition quote_char (c : ascii) (k : string) : string :=
  if (c =? dquote)%char then String backslash (String dquote k)
  else if (c =? backslash)%char then String backslash (String backslash k)
  else if (c =? char_bs)%char then String backslash (String "b" k)
  else if (c =? char_tab)%char then String backslash (String "t" k)
  else if (c =? char_lf)%char then String backslash (String "n" k)
  else if (c =? char_ff)%char then String backslash (String "f" k)
  else if (c =? char_cr)%char then String backslash (String "r" k)
  else if (N_of_ascii c <? 32)%N then
    String backslash (String "u" (String "0" (String "0"
      (String (hex_char (N_of_ascii c / 16))
        (String (hex_char (N_of_ascii c mod 16)) k)))))
  else String c k.

Fixpoint quote_body (s : string) (k : string) : string :=
  match s with
  | EmptyString => k
  | String c s => quote_char c (quote_body s k)
  end.

Definition quote (s : string) (k : string) : string :=
  String dquote (quote_body s (String dquote k)).

Fixpoint spaces (n : nat) (k : string) : string :=
  match n with
  | O => k
  | S n => String " " (spaces n k)
  end.

(** A line break followed by the indentation, or nothing when [gap] is 0
    (the compact form). *)
Definition newline (gap indent : nat) (k : string) : string :=
  match gap with
  | O => k
  | S _ => String char_lf (spaces indent k)
  end.

Definition colon (gap : nat) (k : string) : string :=
  match gap with
  | O => String ":" k
  | S _ => String ":" (String " " k)
  end.

(** What follows an item: the closing text after the last one ([None]),
    a comma and the next line otherwise. *)
Definition after_item (gap indent : nat) (close : string)
    (next : option string) : string :=
  match next with
  | None => close
  | Some t => String "," (newline gap indent t)
  end.

(** SerializeJSONProperty on a JSON value: the text of [v] in front of [k],
    at indentation [indent], [gap] spaces per level. *)
Fixpoint print_value (gap indent : nat) (v : value) (k : string) : string :=
  match v with
  | JNull => "null" +:+ k
  | JBool true => "true" +:+ k
  | JBool false => "false" +:+ k
  | JNumber n => print_number n k
  | JString s => quote s k
  | JArray l =>
      let inner := (indent + gap)%nat in
      let close := newline gap indent (String "]" k) in
      match foldr (λ x next,
               Some (print_value gap inner x (after_item gap inner close next)))
             None l with
      | None => "[]" +:+ k
      | Some t => String "[" (newline gap inner t)
      end
  | JObject m =>
      let inner := (indent + gap)%nat in
      let close := newline gap indent (String "}" k) in
      match map_fold (λ key x next,
               Some (quote key (colon gap
                 (print_value gap inner x (after_item gap inner close next)))))
             None m with
      | None => "{}" +:+ k
      | Some t => String "{" (newline gap inner t)
      end
  end.

(** [JSON.stringify(v, null, space)] for a number [space] of at most 10;
    [JSON.stringify(v)] is [stringify 0 v]. The properties of an object are
    written in the enumeration order of the map, where JS writes them in
    creation order: the text can differ from the one Node writes in the
    order of the members, never in what it parses to. *)
Definition stringify (space : nat) (v : value) : string :=
  print_value space 0 v "".

(** *** [JSON.parse(text)] *)

Definition is_ws (c : ascii) : bool :=
  (c =? " ")%char || (c =? char_tab)%char || (c =? char_lf)%char
  || (c =? char_cr)%char.

Fixpoint skip_ws (s : string) : string :=
  match s with
  | EmptyString => EmptyString
  | String c r => if is_ws c then skip_ws r else s
  end.

Definition digit_of (c : ascii) : option Z :=
  let n := Z.of_N (N_of_ascii c) in
  if (48 <=? n) && (n <=? 57) then Some (n - 48) else None.

Fixpoint parse_digits (acc : Z) (s : string) : Z * string :=
  match s with
  | EmptyString => (acc, EmptyString)
  | String c r =>
      match digit_of c with
      | Some d => parse_digits (10 * acc + d) r
      | None => (acc, s)
      end
  end.

(** The integer part of a JSON number: [0], or a non-zero digit followed by
    digits; a [0] followed by a digit is a syntax error. *)
Definition parse_nat (s : string) : option (Z * string) :=
  match s with
  | EmptyString => None
  | String c r =>
      match digit_of c with
      | None => None
      | Some 0 =>
          match r with
          | String c' _ =>
              match digit_of c' with
              | Some _ => None
              | None => Some (0, r)
              end
          | EmptyString => Some (0, r)
          end
      | Some d => Some (parse_digits d r)
      end
  end.

(** A number literal without fraction or exponent. A fraction or an
    exponent is left unread, and its first character is then refused by
    whatever reads on: the model has no such numbers, and a text that
    contains one is outside of it. *)
Definition parse_number (s : string) : option (Z * string) :=
  match s with
  | String c r =>
      if (c =? "-")%char then
        match parse_nat r with
        | Some (n, r') => Some (- n, r')
        | None => None
        end
      else parse_nat s
  | EmptyString => None
  end.

Definition hex_of (c : ascii) : option N :=
  let n := N_of_ascii c in
  if (48 <=? n)%N && (n <=? 57)%N then Some (n - 48)%N
  else if (97 <=? n)%N && (n <=? 102)%N then Some (n - 87)%N
  else if (65 <=? n)%N && (n <=? 70)%N then Some (n - 55)%N
  else None.

(** The character a [\uXXXX] escape stands for; code units above 255 are
    not characters of the model. *)
Definition unicode_escape (a b c d : ascii) : option ascii :=
  match hex_of a, hex_of b, hex_of c, hex_of d with
  | Some 0%N, Some 0%N, Some h, Some l => Some (ascii_of_N (16 * h + l))
  | _, _, _, _ => None
  end.

Definition simple_escape (c : ascii) : option ascii :=
  if (c =? dquote)%char then Some dquote
  else if (c =? backslash)%char then Some backslash
  else if (c =? "/")%char then Some "/"%char
  else if (c =? "b")%char then Some char_bs
  else if (c =? "t")%char then Some char_tab
  else if (c =? "n")%char then Some char_lf
  else if (c =? "f")%char then Some char_ff
  else if (c =? "r")%char then Some char_cr
  else None.

Definition cons_char (c : ascii) (r : option (string * string))
    : option (string * string) :=
  match r with
  | Some (s, k) => Some (String c s, k)
  | None => None
  end.

(** The characters of a string literal after its opening quote, up to and
    including the closing quote. *)
Fixpoint parse_string_body (s : string) : option (string * string) :=
  match s with
  | EmptyString => None
  | String c r =>
      if (c =? dquote)%char then Some (EmptyString, r)
      else if (c =? backslash)%char then
        match r with
        | EmptyString => None
        | String e r1 =>
            if (e =? "u")%char then
              match r1 with
              | String h1 (String h2 (String h3 (String h4 r2))) =>
                  match unicode_escape h1 h2 h3 h4 with
                  | Some c' => cons_char c' (parse_string_body r2)
                  | None => None
                  end
              | _ => None
              end
            else
              match simple_escape e with
              | Some c' => cons_char c' (parse_string_body r1)
              | None => None
              end
        end
      else if (N_of_ascii c <? 32)%N then None
      else cons_char c (parse_string_body r)
  end.

(** The rest of a literal name ([null], [true], [false]). *)
Fixpoint expect (word : string) (s : string) : option string :=
  match word, s with
  | EmptyString, _ => Some s
  | String a word, String b s => if (a =? b)%char then expect word s else None
  | String _ _, EmptyString => None
  end.

Definition literal (word : string) (v : value) (s : string)
    : option (value * string) :=
  match expect word s with
  | Some r => Some (v, r)
  | None => None
  end.

(** Recursive descent, one procedure per nonterminal; each is written over
    the procedures it calls, and the knot is tied below.

    A value, by its first character; [elements] reads the items of a
    non-empty array and [members] the members of a non-empty object, each up
    to the closing bracket. *)
Definition value_step
    (elements : string → option (list value * string))
    (members : gmap string value → string → option (gmap string value * string))
    (s : string) : option (value * string) :=
  match skip_ws s with
  | EmptyString => None
  | String c r =>
      if (c =? "n")%char then literal "ull" JNull r
      else if (c =? "t")%char then literal "rue" (JBool true) r
      else if (c =? "f")%char then literal "alse" (JBool false) r
      else if (c =? dquote)%char then
        match parse_string_body r with
        | Some (str, r') => Some (JString str, r')
        | None => None
        end
      else if (c =? "[")%char then
        match skip_ws r with
        | String c' r' =>
            if (c' =? "]")%char then Some (JArray [], r')
            else
              match elements r with
              | Some (l, r'') => Some (JArray l, r'')
              | None => None
              end
        | EmptyString => None
        end
      else if (c =? "{")%char then
        match skip_ws r with
        | String c' r' =>
            if (c' =? "}")%char then Some (JObject ∅, r')
            else
              match members ∅ r with
              | Some (m, r'') => Some (JObject m, r'')
              | None => None
              end
        | EmptyString => None
        end
      else
        match parse_number (String c r) with
        | Some (n, r') => Some (JNumber n, r')
        | None => None
        end
  end.

(** An item, then a comma and the other items, or the closing bracket. *)
Definition elements_step
    (value_of : string → option (value * string))
    (elements : string → option (list value * string))
    (s : string) : option (list value * string) :=
  match value_of s with
  | None => None
  | Some (v, r) =>
      match skip_ws r with
      | EmptyString => None
      | String c r' =>
          if (c =? ",")%char then
            match elements r' with
            | Some (l, r'') => Some (v :: l, r'')
            | None => None
            end
          else if (c =? "]")%char then Some ([v], r')
          else None
      end
  end.

(** A member, [name : value], stored in [acc], then a comma and the other
    members, or the closing brace. *)
Definition members_step
    (value_of : string → option (value * string))
    (members : gmap string value → string → option (gmap string value * string))
    (acc : gmap string value) (s : string)
    : option (gmap string value * string) :=
  match skip_ws s with
  | EmptyString => None
  | String c r =>
      if (c =? dquote)%char then
        match parse_string_body r with
        | None => None
        | Some (key, r1) =>
            match skip_ws r1 with
            | EmptyString => None
            | String c1 r2 =>
                if (c1 =? ":")%char then
                  match value_of r2 with
                  | None => None
                  | Some (v, r3) =>
                      match skip_ws r3 with
                      | EmptyString => None
                      | String c3 r4 =>
                          if (c3 =? ",")%char then
                            members (<[key:=v]> acc) r4
                          else if (c3 =? "}")%char then
                            Some (<[key:=v]> acc, r4)
                          else None
                      end
                  end
                else None
            end
        end
      else None
  end.

(** [fuel] bounds the depth of the calls; a text never needs more than its
    length ([parse_value_fuel]). *)
Fixpoint parse_value (fuel : nat) (s : string) : option (value * string) :=
  match fuel with
  | O => None
  | S fuel => value_step (parse_elements fuel) (parse_members fuel) s
  end
with parse_elements (fuel : nat) (s : string) : option (list value * string) :=
  match fuel with
  | O => None
  | S fuel => elements_step (parse_value fuel) (parse_elements fuel) s
  end
with parse_members (fuel : nat) (acc : gmap string value) (s : string)
    : option (gmap string value * string) :=
  match fuel with
  | O => None
  | S fuel => members_step (parse_value fuel) (parse_members fuel) acc s
  end.

(** [JSON.parse(text)]: one value between optional white space, [None] for
    the SyntaxError. A property name met twice keeps the later value. The
    fuel is one more than the length of the text, which is enough for any
    text ([parse_Some]). *)
Definition parse (text : string) : option value :=
  match parse_value (S (String.length text)) text with
  | Some (v, r) =>
      match skip_ws r with
      | EmptyString => Some v
      | String _ _ => None
      end
  | None => None
  end.

(** *** Measures and auxiliary forms used by the round trip *)

(** An upper bound on the fuel [parse_value] needs to read [v] back. *)
Fixpoint weight (v : value) : nat :=
  match v with
  | JArray l => S (foldr (λ x acc, S (weight x + acc)) O l)
  | JObject m => S (map_fold (λ _ x acc, S (weight x + acc)) O m)
  | _ => 1%nat
  end.

Definition weight_items (l : list value) : nat :=
  foldr (λ x acc, S (weight x + acc)) O l.

Definition weight_members (l : list (string * value)) : nat :=
  foldr (uncurry (λ (_ : string) x acc, S (weight x + acc))) O l.

(** The items of an array and the members of an object as [print_value]
    lays them out. *)
Definition print_items (gap inner : nat) (close : string) (l : list value)
    : option string :=
  foldr (λ x next,
      Some (print_value gap inner x (after_item gap inner close next)))
    None l.

Definition print_members (gap inner : nat) (close : string)
    (l : list (string * value)) : option string :=
  foldr (uncurry (λ key x next,
      Some (quote key (colon gap
        (print_value gap inner x (after_item gap inner close next))))))
    None l.

(** A text that does not go on with a digit: what may follow a number. *)
Definition no_digit (k : string) : Prop :=
  match k with
  | EmptyString => True
  | String c _ => digit_of c = None
  end.

(** A character a value can start with: not white space, not a closing
    bracket, not a comma. *)
Definition starts_value (c : ascii) : Prop :=
  is_ws c = false ∧ (c =? "]")%char = false ∧ (c =? "}")%char = false
  ∧ (c =? ",")%char = false.

End JSON.

Import JSON.

(** ** The fragment of JavaScript the class is written in *)

Module Js.

(** The exceptions the class can raise: [JSON.parse] on a malformed text,
    a property read on [null] or a call of something that is not a
    function, and [fs.readFileSync] on a missing file. *)
Inductive error : Type :=
  | SyntaxError
  | TypeError
  | ENOENT.

(** How an evaluation ends. *)
Inductive completion (A : Type) : Type :=
  | Return (a : A)
  | Throw (e : error).
Arguments Return {A} a.
Arguments Throw {A} e.

(** A value handed in by the caller: a JSON value, or [None] for
    [undefined]. *)
Abbreviation arg := (option value).

(** [record.id]. Reading a property of [null] throws; an object answers
    with its own property, if any; the other values (numbers, booleans,
    strings, arrays) have no property of that name. [None] is
    [undefined]. *)
Definition get_id (record : value) : completion (option value) :=
  match record with
  | JNull => Throw TypeError
  | JObject m => Return (m !! "id")
  | _ => Return None
  end.

(** [x === y] where [x] was read from a freshly parsed document: no
    coercion, primitives compare by type and value, and an array or an
    object is only equal to itself, which nothing the caller holds can
    be. *)
Definition strict_equals (x y : option value) : bool :=
  match x, y with
  | None, None => true
  | Some JNull, Some JNull => true
  | Some (JBool a), Some (JBool b) => Bool.eqb a b
  | Some (JNumber a), Some (JNumber b) => a =? b
  | Some (JString a), Some (JString b) => String.eqb a b
  | _, _ => false
  end.

(** [(record) => record.id === id], the callback of [update]. *)
Definition id_is (id : arg) (record : value) : completion bool :=
  match get_id record with
  | Return x => Return (strict_equals x id)
  | Throw e => Throw e
  end.

(** [(record) => record.id !== id], the callback of [delete]. *)
Definition id_is_not (id : arg) (record : value) : completion bool :=
  match get_id record with
  | Return x => Return (negb (strict_equals x id))
  | Throw e => Throw e
  end.

(** The name of the array index [i]. *)
Definition index_key (i : nat) : string := print_nat (Z.of_nat i) "".

(** The own enumerable properties an object spread copies from its source:
    those of an object, the indices of an array or of a string, none for
    the other primitives, [null] and [undefined]. *)
Definition own_props (source : option value) : gmap string value :=
  match source with
  | Some (JObject m) => m
  | Some (JArray l) => list_to_map (imap (λ i x, (index_key i, x)) l)
  | Some (JString s) =>
      list_to_map
        (imap (λ i c, (index_key i, JString (String c EmptyString)))
           (String.list_ascii_of_string s))
  | _ => ∅
  end.

(** [{ ...target, ...source }]: the properties of the source are written
    over those already there. *)
Definition spread (target : gmap string value) (source : option value)
    : gmap string value :=
  own_props source ∪ target.

(** [data.push(x)], giving the array after the call. Only an array has the
    method. *)
Definition push (data x : value) : completion value :=
  match data with
  | JArray l => Return (JArray (l ++ [x]))
  | _ => Throw TypeError
  end.

(** [Array.prototype.findIndex]: the index of the first element the
    callback accepts, [-1] if there is none; an exception of the callback
    ends the search. *)
Fixpoint findIndex_from (callback : value → completion bool)
    (l : list value) (i : Z) : completion Z :=
  match l with
  | [] => Return (-1)
  | x :: l =>
      match callback x with
      | Throw e => Throw e
      | Return true => Return i
      | Return false => findIndex_from callback l (i + 1)
      end
  end.

Definition findIndex (data : value) (callback : value → completion bool)
    : completion Z :=
  match data with
  | JArray l => findIndex_from callback l 0
  | _ => Throw TypeError
  end.

(** [Array.prototype.filter]: the elements the callback accepts, in
    order. *)
Fixpoint filter_list (callback : value → completion bool) (l : list value)
    : completion (list value) :=
  match l with
  | [] => Return []
  | x :: l =>
      match callback x with
      | Throw e => Throw e
      | Return b =>
          match filter_list callback l with
          | Throw e => Throw e
          | Return l' => Return (if b then x :: l' else l')
          end
      end
  end.

Definition filter (data : value) (callback : value → completion bool)
    : completion value :=
  match data with
  | JArray l =>
      match filter_list callback l with
      | Return l' => Return (JArray l')
      | Throw e => Throw e
      end
  | _ => Throw TypeError
  end.

(** [data[index]] and [data[index] = x] on an array, for an index in
    range. *)
Definition element (data : value) (index : Z) : option value :=
  match data with
  | JArray l => l !! Z.to_nat index
  | _ => None
  end.

Definition set_element (data : value) (index : Z) (x : value) : value :=
  match data with
  | JArray l => JArray (<[Z.to_nat index:=x]> l)
  | _ => data
  end.

(** [data.length] of an array. *)
Definition length (data : value) : option Z :=
  match data with
  | JArray l => Some (Z.of_nat (List.length l))
  | _ => None
  end.

End Js.

(** ** The file system *)

(** The files: the content of each file that exists, by path, and the
    paths that lie in a directory that exists, where a file can be created.
    The class makes and removes no directory, so no call changes the
    second.

    A path is the string the program hands to [fs], and names a file or
    nothing. Two spellings of one file ([db.json], [./db.json]) are two
    paths here, so nothing below is stated about a file at another path
    than the one of the store; and a path that names a directory is not a
    state of the model. *)
Record files : Type := Files {
  contents : gmap string string;
  in_directory : gset string
}.

(** [fs !! path] is the content of the file at [path], if there is one, and
    [<[path:=text]> fs] the files with [text] in the file at [path]. The
    empty file system has no file and no directory, and [{[path := text]}]
    has the one file and no directory besides. *)
Global Instance files_lookup : Lookup string string files :=
  λ path fs, contents fs !! path.

Global Instance files_insert : Insert string string files :=
  λ path text fs,
    {| contents := <[path:=text]> (contents fs);
       in_directory := in_directory fs |}.

Global Instance files_empty : Empty files :=
  {| contents := ∅; in_directory := ∅ |}.

Global Instance files_singleton : SingletonM string string files :=
  λ path text, {| contents := {[path := text]}; in_directory := ∅ |}.

(** A computation takes the files and gives a completion and the files it
    leaves. *)
Definition M (A : Type) : Type := files → Js.completion A * files.

Global Instance M_ret : MRet M := λ A a fs, (Js.Return a, fs).

Global Instance M_bind : MBind M := λ A B k m fs,
  match m fs with
  | (Js.Return a, fs') => k a fs'
  | (Js.Throw e, fs') => (Js.Throw e, fs')
  end.

Definition throw {A} (e : Js.error) : M A := λ fs, (Js.Throw e, fs).

Definition lift {A} (c : Js.completion A) : M A := λ fs, (c, fs).

Module Fs.

(** [fs.existsSync(path)] *)
Definition existsSync (path : string) : M bool :=
  λ fs, (Js.Return (bool_decide (is_Some (fs !! path))), fs).

(** [fs.readFileSync(path, "utf8")] *)
Definition readFileSync (path : string) : M string :=
  λ fs,
    match fs !! path with
    | Some content => (Js.Return content, fs)
    | None => (Js.Throw Js.ENOENT, fs)
    end.

(** [fs.writeFileSync(path, content, "utf8")]: the file is overwritten, or
    created when its directory exists; in a directory that does not exist
    the call throws and nothing is written. *)
Definition writeFileSync (path content : string) : M unit :=
  λ fs,
    if bool_decide (is_Some (fs !! path) ∨ path ∈ in_directory fs)
    then (Js.Return tt, <[path:=content]> fs)
    else (Js.Throw Js.ENOENT, fs).

End Fs.

(** [JSON.parse(text)] as a computation: a malformed text throws. *)
Definition JSON_parse (text : string) : M value :=
  match JSON.parse text with
  | Some v => mret v
  | None => throw Js.SyntaxError
  end.

(** ** The class *)

Module LocalJSONDB.

(** An instance: [this.filePath]. *)
Record t : Type := { filePath : string }.

(** [constructor(filePath)] *)
Definition constructor (filePath : string) : M t :=
  let this := {| filePath := filePath |} in
  found ← Fs.existsSync filePath;
  if negb found then
    Fs.writeFileSync filePath (JSON.stringify 0 (JArray []));;
    mret this
  else mret this.

(** [read()] *)
Definition read (this : t) : M value :=
  data ← Fs.readFileSync (filePath this);
  JSON_parse data.

(** [write(data)] *)
Definition write (this : t) (data : value) : M unit :=
  Fs.writeFileSync (filePath this) (JSON.stringify 2 data).

(** [create(record)]; [now] is what [Date.now()] answers. *)
Definition create (this : t) (now : Z) (record : Js.arg) : M value :=
  data ← read this;
  let newRecord := JObject (Js.spread {["id" := JNumber now]} record) in
  data ← lift (Js.push data newRecord);
  write this data;;
  mret newRecord.

(** [update(id, updatedFields)]; [JNull] is the [null] of a record not
    found. *)
Definition update (this : t) (id : Js.arg) (updatedFields : Js.arg)
    : M value :=
  data ← read this;
  index ← lift (Js.findIndex data (Js.id_is id));
  if index =? -1 then mret JNull
  else
    let updatedRecord :=
      JObject (Js.spread (Js.spread ∅ (Js.element data index)) updatedFields) in
    let data := Js.set_element data index updatedRecord in
    write this data;;
    mret updatedRecord.

(** [delete(id)] *)
Definition delete (this : t) (id : Js.arg) : M bool :=
  data ← read this;
  newData ← lift (Js.filter data (Js.id_is_not id));
  if bool_decide (Js.length newData = Js.length data) then mret false
  else
    write this newData;;
    mret true.

(** [query(filterFn)]; the callback is a function of the record that
    answers a truth value or throws. *)
Definition query (this : t) (filterFn : value → Js.completion bool)
    : M value :=
  data ← read this;
  lift (Js.filter data filterFn).

End LocalJSONDB.

(** ** Documents, records and runs *)

(** A record is an object; a document is an array of records. *)
Definition is_record (v : value) : Prop :=
  match v with
  | JObject _ => True
  | _ => False
  end.

(** The record has the identifier [id], in the sense of [===]. *)
Definition has_id (id : Js.arg) (record : value) : bool :=
  match Js.get_id record with
  | Js.Return x => Js.strict_equals x id
  | Js.Throw _ => false
  end.

(** The mutating calls a client can make, and what a sequence of them does
    to the files, call by call. *)
Inductive op : Type :=
  | Create (now : Z) (record : Js.arg)
  | Update (id updatedFields : Js.arg)
  | Delete (id : Js.arg).

Definition exec (this : LocalJSONDB.t) (o : op) : M value :=
  match o with
  | Create now record => LocalJSONDB.create this now record
  | Update id updatedFields => LocalJSONDB.update this id updatedFields
  | Delete id => b ← LocalJSONDB.delete this id; mret (JBool b)
  end.

Record step : Type := {
  step_op : op;
  before : files;
  outcome : Js.completion value;
  after : files
}.

Fixpoint run (this : LocalJSONDB.t) (ops : list op) (fs : files) : list step :=
  match ops with
  | [] => []
  | o :: ops =>
      let r := exec this o fs in
      {| step_op := o; before := fs; outcome := r.1; after := r.2 |}
      :: run this ops r.2
  end.

(** What a call that returns has computed from the document [l] it
    loaded: the result [res] it returns, the document [doc] it has in memory
    when it ends, and whether it persisted it. In [create] the document is
    [data] after the push, and it is always persisted. In [update] it is
    [data] after the assignment, persisted, or the document loaded when no
    record has the id. In [delete] it is [newData], persisted when it is
    shorter than the document loaded. *)
Definition computed (o : op) (l : list value) (res : value)
    (doc : list value) (persisted : bool) : Prop :=
  match o with
  | Create now record =>
      res = JObject (Js.spread {["id" := JNumber now]} record)
      ∧ doc = l ++ [res]
      ∧ persisted = true
  | Update id updatedFields =>
      (Forall (λ x, Js.id_is id x = Js.Return false) l
       ∧ res = JNull ∧ doc = l ∧ persisted = false)
      ∨ ∃ pre x post,
          l = pre ++ x :: post
          ∧ Forall (λ y, Js.id_is id y = Js.Return false) pre
          ∧ Js.id_is id x = Js.Return true
          ∧ res = JObject (Js.spread (Js.spread ∅ (Some x)) updatedFields)
          ∧ doc = pre ++ res :: post
          ∧ persisted = true
  | Delete id =>
      Js.filter_list (Js.id_is_not id) l = Js.Return doc
      ∧ persisted = negb (Nat.eqb (List.length doc) (List.length l))
      ∧ res = JBool persisted
  end.

(** ** A store and some documents to try the methods on *)

Definition db : LocalJSONDB.t := {| LocalJSONDB.filePath := "db.json" |}.

Definition ada : gmap string value :=
  {["id" := JNumber 5; "name" := JString "ada"]}.

Definition bob : gmap string value :=
  {["id" := JNumber 6; "name" := JString "bob"]}.

(** A directory with no file in it, in which [db.json] can be created. *)
Definition empty_directory : files :=
  {| contents := ∅; in_directory := {["db.json"]} |}.

(** The files when [db.json] holds the serialised [doc]. *)
Definition stored (doc : value) : files :=
  {["db.json" := JSON.stringify 2 doc]}.

(** ** Texts the parser of the model reads as the platform does *)

(** A text in which no digit is followed by [.], [e] or [E], and no
    backslash by [u]. Such a text has no number with a fraction or an
    exponent and no [\u] escape, the two parts of JSON that [JSON.parse]
    above does not read in full. *)
Fixpoint plain_text (s : string) : bool :=
  match s with
  | EmptyString => true
  | String a r =>
      match r with
      | EmptyString => true
      | String b _ =>
          if match digit_of a with Some _ => true | None => false end
             && ((b =? ".")%char || (b =? "e")%char || (b =? "E")%char)
          then false
          else if (a =? backslash)%char && (b =? "u")%char then false
          else plain_text r
      end
  end.

(** ** Sequences of calls *)

(** A record that has a property [id], whatever its value. *)
Definition has_id_field (v : value) : Prop :=
  match v with
  | JObject m => is_Some (m !! "id")
  | _ => False
  end.

(** The files a sequence of calls leaves, each call starting from the files
    the one before left, whether it returned or threw. *)
Definition files_after (this : LocalJSONDB.t) (ops : list op) (fs : files)
    : files :=
  foldl (λ fs o, (exec this o fs).2) fs ops.

(** The call [create(fields)] made when the clock reads [now], and the
    record it makes. *)
Definition create_call (c : Z * gmap string value) : op :=
  Create c.1 (Some (JObject c.2)).

Definition created (c : Z * gmap string value) : value :=
  JObject (Js.spread {["id" := JNumber c.1]} (Some (JObject c.2))).

(** * Properties *)

(** ** The round trip of the serialiser and the parser *)

Section json_round_trip.

Lemma skip_ws_idemp s : skip_ws (skip_ws s) = skip_ws s.
Proof.
  induction s as [|c r IH]; [done|]. simpl.
  destruct (is_ws c) eqn:E; [done|]. simpl. by rewrite E.
Qed.

Lemma skip_ws_spaces n k : skip_ws (spaces n k) = skip_ws k.
Proof. induction n as [|n IH]; [done|]. exact IH. Qed.

Lemma skip_ws_newline gap n k : skip_ws (newline gap n k) = skip_ws k.
Proof. destruct gap; [done|]. simpl. apply skip_ws_spaces. Qed.

Lemma parse_value_ws fuel s : parse_value fuel (skip_ws s) = parse_value fuel s.
Proof. destruct fuel; [done|]. simpl. unfold value_step. by rewrite skip_ws_idemp. Qed.

Lemma parse_elements_ws fuel s :
  parse_elements fuel (skip_ws s) = parse_elements fuel s.
Proof.
  destruct fuel; [done|]. simpl. unfold elements_step. by rewrite parse_value_ws.
Qed.

Lemma parse_members_ws fuel acc s :
  parse_members fuel acc (skip_ws s) = parse_members fuel acc s.
Proof.
  destruct fuel; [done|]. simpl. unfold members_step. by rewrite skip_ws_idemp.
Qed.

(** Numbers *)

Lemma digit_of_digit_char d : 0 ≤ d < 10 → digit_of (digit_char d) = Some d.
Proof.
  intros Hd.
  assert (d = 0 ∨ d = 1 ∨ d = 2 ∨ d = 3 ∨ d = 4 ∨ d = 5 ∨ d = 6 ∨ d = 7
          ∨ d = 8 ∨ d = 9) as Hcases by lia.
  repeat destruct Hcases as [->|Hcases]; try subst d; reflexivity.
Qed.

Lemma parse_digits_no_digit n k : no_digit k → parse_digits n k = (n, k).
Proof. destruct k as [|c r]; [done|]. simpl. by intros ->. Qed.

Lemma print_digits_parse fuel n k :
  0 < n < 2 ^ Z.of_nat fuel →
  ∃ d r, 1 ≤ d < 10 ∧ print_digits fuel n k = String (digit_char d) r
         ∧ parse_digits d r = parse_digits n k.
Proof.
  revert n k. induction fuel as [|fuel IH]; intros n k Hn.
  { simpl in Hn. lia. }
  simpl. destruct (Z.ltb_spec n 10) as [Hlt|Hge].
  - exists n, k. split; [lia|done].
  - destruct (IH (n / 10) (String (digit_char (n mod 10)) k)) as (d & r & Hd & Hp & Hq).
    { rewrite Nat2Z.inj_succ, Z.pow_succ_r in Hn by lia. split.
      - apply Z.div_str_pos. lia.
      - apply Z.div_lt_upper_bound; lia. }
    exists d, r. split; [done|]. split; [done|].
    rewrite Hq. simpl. rewrite digit_of_digit_char by (apply Z.mod_pos_bound; lia).
    f_equal. pose proof (Z.div_mod n 10). lia.
Qed.

Lemma print_nat_parse n k :
  0 < n →
  ∃ d r, 1 ≤ d < 10 ∧ print_nat n k = String (digit_char d) r
         ∧ parse_digits d r = parse_digits n k.
Proof.
  intros Hn. apply print_digits_parse. split; [done|].
  rewrite Nat2Z.inj_succ, Z2Nat.id by apply Z.log2_nonneg.
  by apply Z.log2_spec.
Qed.

Lemma parse_nat_print n k :
  0 ≤ n → no_digit k → parse_nat (print_nat n k) = Some (n, k).
Proof.
  intros Hn Hk. destruct (decide (n = 0)) as [->|Hne].
  - cbn. destruct k as [|c r]; [done|]. simpl in Hk. by rewrite Hk.
  - destruct (print_nat_parse n k) as (d & r & Hd & -> & Hq); [lia|].
    simpl. rewrite digit_of_digit_char by lia.
    rewrite Hq, parse_digits_no_digit by done.
    destruct d; done || lia.
Qed.

Lemma parse_number_print n k :
  no_digit k → parse_number (print_number n k) = Some (n, k).
Proof.
  intros Hk. unfold print_number. destruct (Z.ltb_spec n 0) as [Hlt|Hge].
  - simpl. rewrite parse_nat_print by (done || lia). f_equal. f_equal. lia.
  - destruct (decide (n = 0)) as [->|Hne].
    + cbn. destruct k as [|c r]; [done|]. simpl in Hk. by rewrite Hk.
    + destruct (print_nat_parse n k) as (d & r & Hd & Heq & Hq); [lia|].
      pose proof (parse_nat_print n k Hge Hk) as Hp. rewrite Heq in Hp |- *.
      unfold parse_number.
      assert ((digit_char d =? "-")%char = false) as ->; [|done].
      assert (d = 1 ∨ d = 2 ∨ d = 3 ∨ d = 4 ∨ d = 5 ∨ d = 6 ∨ d = 7
              ∨ d = 8 ∨ d = 9) as Hcases by lia.
      repeat destruct Hcases as [->|Hcases]; try subst d; reflexivity.
Qed.

(** Strings *)

Lemma parse_quote_char c r :
  parse_string_body (quote_char c r) = cons_char c (parse_string_body r).
Proof.
  destruct c as [[] [] [] [] [] [] [] []]; reflexivity.
Qed.

Lemma parse_quote_body s k :
  parse_string_body (quote_body s (String dquote k)) = Some (s, k).
Proof.
  induction s as [|c s IH]; [done|].
  simpl. by rewrite parse_quote_char, IH.
Qed.

(** First characters *)

Lemma digit_starts_number c :
  c = "-"%char ∨ is_Some (digit_of c) →
  starts_value c ∧ (c =? "n")%char = false ∧ (c =? "t")%char = false
  ∧ (c =? "f")%char = false ∧ (c =? dquote)%char = false
  ∧ (c =? "[")%char = false ∧ (c =? "{")%char = false.
Proof.
  intros [->|[d Hd]]; [by repeat split|].
  destruct c as [[] [] [] [] [] [] [] []]; (discriminate Hd || by repeat split).
Qed.

Lemma print_number_head n k :
  ∃ c r, print_number n k = String c r ∧ (c = "-"%char ∨ is_Some (digit_of c)).
Proof.
  unfold print_number. destruct (Z.ltb_spec n 0) as [Hlt|Hge]; [by eauto|].
  destruct (decide (n = 0)) as [->|Hne].
  - exists "0"%char, k. split; [done|]. right. by eexists.
  - destruct (print_nat_parse n k) as (d & r & Hd & -> & _); [lia|].
    exists (digit_char d), r. split; [done|]. right.
    rewrite digit_of_digit_char by lia. by eexists.
Qed.

Lemma print_value_head gap indent v k :
  ∃ c r, print_value gap indent v k = String c r ∧ starts_value c.
Proof.
  destruct v as [|[]|n|s|l|m]; simpl.
  - by eexists _, _.
  - by eexists _, _.
  - by eexists _, _.
  - destruct (print_number_head n k) as (c & r & -> & Hc).
    exists c, r. split; [done|]. by apply digit_starts_number.
  - by eexists _, _.
  - destruct (foldr _ _ _); by eexists _, _.
  - destruct (map_fold _ _ _); by eexists _, _.
Qed.

Lemma skip_ws_print_value gap indent v k :
  skip_ws (print_value gap indent v k) = print_value gap indent v k.
Proof.
  destruct (print_value_head gap indent v k) as (c & r & -> & Hc & _).
  simpl. by rewrite Hc.
Qed.

(** Unfolding equations *)

Lemma print_value_array gap indent l k :
  print_value gap indent (JArray l) k =
  match print_items gap (indent + gap)
          (newline gap indent (String "]" k)) l with
  | None => "[]" +:+ k
  | Some t => String "[" (newline gap (indent + gap) t)
  end.
Proof. reflexivity. Qed.

Lemma print_value_object gap indent m k :
  print_value gap indent (JObject m) k =
  match print_members gap (indent + gap)
          (newline gap indent (String "}" k)) (map_to_list m) with
  | None => "{}" +:+ k
  | Some t => String "{" (newline gap (indent + gap) t)
  end.
Proof. simpl. by rewrite map_fold_foldr. Qed.

Lemma weight_array l : weight (JArray l) = S (weight_items l).
Proof. reflexivity. Qed.

Lemma weight_object m : weight (JObject m) = S (weight_members (map_to_list m)).
Proof. simpl. by rewrite map_fold_foldr. Qed.

Lemma parse_value_array fuel r :
  parse_value (S fuel) (String "[" r) =
  match skip_ws r with
  | String c' r' =>
      if (c' =? "]")%char then Some (JArray [], r')
      else
        match parse_elements fuel r with
        | Some (l, r'') => Some (JArray l, r'')
        | None => None
        end
  | EmptyString => None
  end.
Proof. reflexivity. Qed.

Lemma parse_value_object fuel r :
  parse_value (S fuel) (String "{" r) =
  match skip_ws r with
  | String c' r' =>
      if (c' =? "}")%char then Some (JObject ∅, r')
      else
        match parse_members fuel ∅ r with
        | Some (m, r'') => Some (JObject m, r'')
        | None => None
        end
  | EmptyString => None
  end.
Proof. reflexivity. Qed.

Lemma parse_value_number fuel c r :
  c = "-"%char ∨ is_Some (digit_of c) →
  parse_value (S fuel) (String c r) =
  match parse_number (String c r) with
  | Some (n, r') => Some (JNumber n, r')
  | None => None
  end.
Proof.
  intros Hc. apply digit_starts_number in Hc
    as ((Hws & _) & Hn & Ht & Hf & Hq & Ha & Ho).
  cbn [parse_value]. unfold value_step. cbn [skip_ws].
  by rewrite Hws, Hn, Ht, Hf, Hq, Ha, Ho.
Qed.

Lemma parse_elements_step fuel s :
  parse_elements (S fuel) s =
  match parse_value fuel s with
  | None => None
  | Some (v, r) =>
      match skip_ws r with
      | EmptyString => None
      | String c r' =>
          if (c =? ",")%char then
            match parse_elements fuel r' with
            | Some (l, r'') => Some (v :: l, r'')
            | None => None
            end
          else if (c =? "]")%char then Some ([v], r')
          else None
      end
  end.
Proof. reflexivity. Qed.

Lemma parse_members_step fuel acc r :
  parse_members (S fuel) acc (String dquote r) =
  match parse_string_body r with
  | None => None
  | Some (key, r1) =>
      match skip_ws r1 with
      | EmptyString => None
      | String c1 r2 =>
          if (c1 =? ":")%char then
            match parse_value fuel r2 with
            | None => None
            | Some (v, r3) =>
                match skip_ws r3 with
                | EmptyString => None
                | String c3 r4 =>
                    if (c3 =? ",")%char then
                      parse_members fuel (<[key:=v]> acc) r4
                    else if (c3 =? "}")%char then Some (<[key:=v]> acc, r4)
                    else None
                end
            end
          else None
      end
  end.
Proof. reflexivity. Qed.

Lemma no_digit_newline gap indent c k :
  digit_of c = None → no_digit (newline gap indent (String c k)).
Proof. by destruct gap. Qed.

Lemma no_digit_after_item gap indent close next :
  no_digit close → no_digit (after_item gap indent close next).
Proof. by destruct next. Qed.

Lemma foldl_insert_list_to_map {A} (l : list (string * A)) (acc : gmap string A) :
  NoDup l.*1 →
  foldl (λ a kx, <[kx.1:=kx.2]> a) acc l = list_to_map l ∪ acc.
Proof.
  revert acc. induction l as [|[key x] l IH]; intros acc Hnd.
  { simpl. by rewrite (left_id_L ∅ (∪)). }
  apply NoDup_cons in Hnd as [Hkey Hnd]. simpl.
  rewrite IH by done. rewrite <-insert_union_l.
  by rewrite insert_union_r by by apply not_elem_of_list_to_map_1.
Qed.

Lemma parse_value_colon fuel gap s :
  ∃ r, skip_ws (colon gap s) = String ":" r
       ∧ parse_value fuel r = parse_value fuel s.
Proof.
  destruct gap as [|gap]; [by exists s|].
  exists (String " " s). split; [done|].
  rewrite <-(parse_value_ws _ (String " " s)).
  change (skip_ws (String " " s)) with (skip_ws s). apply parse_value_ws.
Qed.

(** The parser reads back what the serialiser wrote, given fuel for the
    weight of the value. The three parsers are handled together, by
    induction on the fuel. *)
Lemma parse_print_fuel fuel :
  (∀ gap indent v k,
     (weight v ≤ fuel)%nat → no_digit k →
     parse_value fuel (print_value gap indent v k) = Some (v, k))
  ∧ (∀ gap inner close k l t,
     (weight_items l ≤ fuel)%nat →
     no_digit close → skip_ws close = String "]" k →
     print_items gap inner close l = Some t →
     parse_elements fuel t = Some (l, k))
  ∧ (∀ gap inner close k l t acc,
     (weight_members l ≤ fuel)%nat →
     no_digit close → skip_ws close = String "}" k →
     print_members gap inner close l = Some t →
     parse_members fuel acc t
     = Some (foldl (λ a kx, <[kx.1:=kx.2]> a) acc l, k)).
Proof.
  induction fuel as [|fuel (IHv & IHe & IHm)].
  { split_and!.
    - intros gap indent v k Hw. destruct v; simpl in Hw; lia.
    - intros gap inner close k [|x l] t Hw; [done|]. simpl in Hw. lia.
    - intros gap inner close k [|[key x] l] t acc Hw; [done|]. simpl in Hw. lia. }
  split_and!.
  - intros gap indent v k Hw Hk. destruct v as [|[]|n|s|l|m].
    + reflexivity.
    + reflexivity.
    + reflexivity.
    + change (print_value gap indent (JNumber n) k) with (print_number n k).
      destruct (print_number_head n k) as (c & r & Heq & Hc).
      rewrite Heq, parse_value_number, <-Heq by done.
      by rewrite parse_number_print.
    + cbn. by rewrite parse_quote_body.
    + rewrite print_value_array. rewrite weight_array in Hw.
      destruct l as [|x l]; [reflexivity|].
      destruct (print_items _ _ _ (x :: l)) as [t|] eqn:Ht; [|done].
      rewrite parse_value_array, <-parse_elements_ws, skip_ws_newline.
      rewrite parse_elements_ws.
      rewrite (IHe gap (indent + gap)%nat
                 (newline gap indent (String "]" k)) k (x :: l) t);
        [|lia|by apply no_digit_newline|by rewrite skip_ws_newline|done].
      simpl in Ht. injection Ht as <-. rewrite skip_ws_print_value.
      destruct (print_value_head gap (indent + gap) x
        (after_item gap (indent + gap) (newline gap indent (String "]" k))
           (print_items gap (indent + gap)
              (newline gap indent (String "]" k)) l)))
        as (c & r & -> & _ & -> & _). done.
    + rewrite print_value_object. rewrite weight_object in Hw.
      destruct (map_to_list m) as [|[key x] l] eqn:Hl.
      { apply map_to_list_empty_iff in Hl as ->. reflexivity. }
      destruct (print_members _ _ _ ((key, x) :: l)) as [t|] eqn:Ht; [|done].
      rewrite parse_value_object, <-parse_members_ws, skip_ws_newline.
      rewrite parse_members_ws.
      rewrite (IHm gap (indent + gap)%nat
                 (newline gap indent (String "}" k)) k ((key, x) :: l) t ∅);
        [|lia|by apply no_digit_newline|by rewrite skip_ws_newline|done].
      rewrite foldl_insert_list_to_map;
        [|rewrite <-Hl; apply NoDup_fst_map_to_list].
      simpl in Ht. injection Ht as <-. unfold quote at 1.
      cbn [skip_ws is_ws Ascii.eqb Bool.eqb orb].
      change (("034" =? "}")%char) with false. cbn iota.
      by rewrite <-Hl, list_to_map_to_list, (right_id_L ∅ (∪)).
  - intros gap inner close k l t Hw Hclose Hskip Ht.
    destruct l as [|x l]; [done|]. simpl in Ht, Hw. injection Ht as <-.
    rewrite parse_elements_step.
    rewrite IHv by (lia || by apply no_digit_after_item).
    destruct l as [|y l].
    + simpl. by rewrite Hskip.
    + destruct (print_items gap inner close (y :: l)) as [t|] eqn:Ht; [|done].
      cbn [after_item skip_ws is_ws Ascii.eqb Bool.eqb orb].
      change (("," =? ",")%char) with true. cbn iota.
      rewrite <-parse_elements_ws, skip_ws_newline, parse_elements_ws.
      rewrite (IHe gap inner close k (y :: l) t); [done|..|done]; try done.
      simpl in *; lia.
  - intros gap inner close k l t acc Hw Hclose Hskip Ht.
    destruct l as [|[key x] l]; [done|]. simpl in Ht, Hw. injection Ht as <-.
    unfold quote at 1. rewrite parse_members_step, parse_quote_body.
    edestruct (parse_value_colon fuel gap) as (r & -> & Hr).
    change ((":" =? ":")%char) with true. cbn iota. rewrite Hr.
    rewrite IHv by (lia || by apply no_digit_after_item).
    destruct l as [|[key' y] l].
    + simpl. by rewrite Hskip.
    + destruct (print_members gap inner close ((key', y) :: l)) as [t|] eqn:Ht;
        [|done].
      cbn [after_item skip_ws is_ws Ascii.eqb Bool.eqb orb].
      change (("," =? ",")%char) with true. cbn iota.
      rewrite <-parse_members_ws, skip_ws_newline, parse_members_ws.
      rewrite (IHm gap inner close k ((key', y) :: l) t); [done|..|done];
        try done.
      simpl in *; lia.
Qed.

End json_round_trip.

(** ** The fuel of the parser *)

Section json_fuel.

Local Open Scope nat_scope.

Lemma skip_ws_length s : String.length (skip_ws s) ≤ String.length s.
Proof.
  induction s as [|c r IH]; simpl; [done|]. destruct (is_ws c); simpl; lia.
Qed.

Lemma expect_length word s r : expect word s = Some r → String.length r ≤ String.length s.
Proof.
  revert s. induction word as [|a word IH]; intros s; simpl.
  { by intros [= ->]. }
  destruct s as [|b s]; [done|]. destruct (a =? b)%char; [|done].
  intros ?%IH. simpl. lia.
Qed.

Lemma literal_length word v s x r :
  literal word v s = Some (x, r) → String.length r ≤ String.length s.
Proof.
  unfold literal. destruct (expect word s) as [r'|] eqn:He; [|done].
  intros [= _ <-]. by eapply expect_length.
Qed.

Lemma cons_char_inv c p str r :
  cons_char c p = Some (str, r) → ∃ str', p = Some (str', r).
Proof. destruct p as [[str' r']|]; [|done]. intros [= _ <-]. eauto. Qed.

Lemma parse_string_body_length s str r :
  parse_string_body s = Some (str, r) → String.length r < String.length s.
Proof.
  revert str r. induction (Nat.lt_wf_0_projected String.length s) as [s _ IH].
  intros str r. destruct s as [|c s]; [done|]. simpl.
  repeat (case_match; try done); simplify_eq; simpl.
  all: try (intros [= _ <-]; simpl; lia).
  all: intros [str' Hp]%cons_char_inv; apply IH in Hp; simpl in *; lia.
Qed.

Lemma parse_digits_length acc s n r :
  parse_digits acc s = (n, r) → String.length r ≤ String.length s.
Proof.
  revert acc. induction s as [|c s IH]; intros acc; simpl.
  { by intros [= _ <-]. }
  destruct (digit_of c); [|by intros [= _ <-]].
  intros ?%IH. lia.
Qed.

Lemma parse_nat_length s n r : parse_nat s = Some (n, r) → String.length r < String.length s.
Proof.
  destruct s as [|c s]; [done|]. simpl.
  repeat (case_match; try done); simplify_eq; simpl.
  all: try (intros [= _ <-]; simpl; lia).
  all: intros [= Hd]; apply parse_digits_length in Hd; lia.
Qed.

Lemma parse_number_length s n r : parse_number s = Some (n, r) → String.length r < String.length s.
Proof.
  destruct s as [|c s]; [done|]. unfold parse_number.
  destruct (c =? "-")%char.
  - destruct (parse_nat s) as [[m r']|] eqn:Hn; [|done].
    intros [= _ <-]. apply parse_nat_length in Hn. simpl. lia.
  - apply parse_nat_length.
Qed.

(** A successful parse consumes at least one character, and succeeds with
    the same result on any fuel that is at least the number of characters
    it consumed. *)
Lemma parse_fuel_by_length fuel :
  (∀ s v r, parse_value fuel s = Some (v, r) →
     String.length r < String.length s
     ∧ ∀ n, String.length s - String.length r ≤ n → parse_value n s = Some (v, r))
  ∧ (∀ s l r, parse_elements fuel s = Some (l, r) →
     String.length r < String.length s
     ∧ ∀ n, String.length s - String.length r ≤ n → parse_elements n s = Some (l, r))
  ∧ (∀ acc s m r, parse_members fuel acc s = Some (m, r) →
     String.length r < String.length s
     ∧ ∀ n, String.length s - String.length r ≤ n → parse_members n acc s = Some (m, r)).
Proof.
  induction fuel as [|fuel (IHv & IHe & IHm)]; [done|].
  split_and!.
  - intros s v r. cbn [parse_value]. intros H.
    assert (String.length r < String.length s
            ∧ ∀ n, String.length s - String.length r ≤ S n →
                   value_step (parse_elements n) (parse_members n) s
                   = Some (v, r)) as [Hlt Hn].
    2:{ split; [done|]. intros [|n] Hle; [lia|]. by apply Hn. }
    unfold value_step in *.
    pose proof (skip_ws_length s) as Hs.
    destruct (skip_ws s) as [|c r0] eqn:Hskip; [done|]. simpl in Hs.
    destruct (c =? "n")%char.
    { pose proof (literal_length _ _ _ _ _ H). split; [lia|done]. }
    destruct (c =? "t")%char.
    { pose proof (literal_length _ _ _ _ _ H). split; [lia|done]. }
    destruct (c =? "f")%char.
    { pose proof (literal_length _ _ _ _ _ H). split; [lia|done]. }
    destruct (c =? "034")%char.
    { destruct (parse_string_body r0) as [[str r']|] eqn:Hstr; [|done].
      injection H as <- <-. apply parse_string_body_length in Hstr.
      split; [lia|done]. }
    destruct (c =? "[")%char.
    { pose proof (skip_ws_length r0) as Hs0.
      destruct (skip_ws r0) as [|c' r'] eqn:Hskip0; [done|]. simpl in Hs0.
      destruct (c' =? "]")%char.
      { injection H as <- <-. split; [lia|done]. }
      destruct (parse_elements fuel r0) as [[l r'']|] eqn:He; [|done].
      injection H as <- <-. apply IHe in He as [Hlt Hn].
      split; [lia|]. intros n Hle. by rewrite Hn by lia. }
    destruct (c =? "{")%char.
    { pose proof (skip_ws_length r0) as Hs0.
      destruct (skip_ws r0) as [|c' r'] eqn:Hskip0; [done|]. simpl in Hs0.
      destruct (c' =? "}")%char.
      { injection H as <- <-. split; [lia|done]. }
      destruct (parse_members fuel ∅ r0) as [[m r'']|] eqn:Hm; [|done].
      injection H as <- <-. apply IHm in Hm as [Hlt Hn].
      split; [lia|]. intros n Hle. by rewrite Hn by lia. }
    destruct (parse_number (String c r0)) as [[k r']|] eqn:Hnum; [|done].
    injection H as <- <-. apply parse_number_length in Hnum. simpl in Hnum.
    split; [lia|done].
  - intros s l r. cbn [parse_elements]. intros H.
    assert (String.length r < String.length s
            ∧ ∀ n, String.length s - String.length r ≤ S n →
                   elements_step (parse_value n) (parse_elements n) s
                   = Some (l, r)) as [Hlt Hn].
    2:{ split; [done|]. intros [|n] Hle; [lia|]. by apply Hn. }
    unfold elements_step in *.
    destruct (parse_value fuel s) as [[v r1]|] eqn:Hv; [|done].
    apply IHv in Hv as [Hlt1 Hn1].
    pose proof (skip_ws_length r1) as Hs1.
    destruct (skip_ws r1) as [|c r'] eqn:Hskip; [done|]. simpl in Hs1.
    destruct (c =? ",")%char eqn:Hc.
    + destruct (parse_elements fuel r') as [[l' r'']|] eqn:He; [|done].
      injection H as <- <-. apply IHe in He as [Hlt Hn].
      split; [lia|]. intros n Hle.
      by rewrite Hn1, Hskip, Hc, Hn by lia.
    + destruct (c =? "]")%char eqn:Hc'; [|done]. injection H as <- <-.
      split; [lia|]. intros n Hle. by rewrite Hn1, Hskip, Hc, Hc' by lia.
  - intros acc s m r. cbn [parse_members].
    intros H.
    assert (String.length r < String.length s
            ∧ ∀ n, String.length s - String.length r ≤ S n →
                   members_step (parse_value n) (parse_members n) acc s
                   = Some (m, r)) as [Hlt Hn].
    2:{ split; [done|]. intros [|n] Hle; [lia|]. by apply Hn. }
    unfold members_step in *.
    pose proof (skip_ws_length s) as Hs.
    destruct (skip_ws s) as [|c r0] eqn:Hskip; [done|]. simpl in Hs.
    destruct (c =? "034")%char; [|done].
    destruct (parse_string_body r0) as [[key r1]|] eqn:Hkey; [|done].
    apply parse_string_body_length in Hkey.
    pose proof (skip_ws_length r1) as Hs1.
    destruct (skip_ws r1) as [|c1 r2] eqn:Hskip1; [done|]. simpl in Hs1.
    destruct (c1 =? ":")%char; [|done].
    destruct (parse_value fuel r2) as [[v r3]|] eqn:Hv; [|done].
    apply IHv in Hv as [Hlt3 Hn3].
    pose proof (skip_ws_length r3) as Hs3.
    destruct (skip_ws r3) as [|c3 r4] eqn:Hskip3; [done|]. simpl in Hs3.
    destruct (c3 =? ",")%char eqn:Hc3.
    + apply IHm in H as [Hlt Hn]. split; [lia|]. intros n Hle.
      rewrite Hn3 by lia. rewrite Hskip3, Hc3. apply Hn. lia.
    + destruct (c3 =? "}")%char eqn:Hc3'; [|done]. simplify_eq.
      split; [lia|]. intros n Hle. by rewrite Hn3, Hskip3, Hc3, Hc3' by lia.
Qed.

(** More fuel than the length of the text changes nothing. *)
Lemma parse_value_fuel fuel text v r :
  parse_value fuel text = Some (v, r) →
  parse_value (S (String.length text)) text = Some (v, r).
Proof.
  intros H. destruct (parse_fuel_by_length fuel) as (Hv & _).
  apply Hv in H as [_ Hn]. apply Hn. lia.
Qed.

(** [parse] accepts a text exactly when some fuel reads a value from it
    with nothing but white space left. *)
Lemma parse_Some text v :
  JSON.parse text = Some v
  ↔ ∃ fuel r, parse_value fuel text = Some (v, r) ∧ skip_ws r = EmptyString.
Proof.
  unfold JSON.parse. split.
  - destruct (parse_value _ text) as [[w r]|] eqn:Hp; [|done].
    destruct (skip_ws r) eqn:Hr; [|done]. intros [= ->]. eauto.
  - intros (fuel & r & Hp%parse_value_fuel & Hr). by rewrite Hp, Hr.
Qed.

End json_fuel.

(** ** Serialise, then parse *)

Section json_parse_stringify.

(** The text of a value is at least as long as its weight, so the fuel
    [parse] gives itself is enough. *)

Lemma print_digits_length fuel n k :
  (String.length k ≤ String.length (print_digits fuel n k))%nat.
Proof.
  revert n k. induction fuel as [|fuel IH]; intros n k; simpl; [done|].
  destruct (n <? 10); simpl; [lia|].
  etrans; [|apply IH]. simpl. lia.
Qed.

Lemma print_number_length n k :
  (S (String.length k) ≤ String.length (print_number n k))%nat.
Proof.
  unfold print_number, print_nat.
  destruct (n <? 0); cbn [print_digits String.length].
  - destruct (- n <? 10); simpl; [lia|].
    etrans; [|apply le_n_S, print_digits_length]. simpl. lia.
  - destruct (n <? 10); simpl; [lia|].
    etrans; [|apply print_digits_length]. simpl. lia.
Qed.

Lemma quote_char_length c k :
  (S (String.length k) ≤ String.length (quote_char c k))%nat.
Proof.
  unfold quote_char. repeat case_match; simpl; lia.
Qed.

Lemma quote_length s k :
  (2 + String.length k ≤ String.length (quote s k))%nat.
Proof.
  unfold quote. simpl. apply le_n_S.
  induction s as [|c s IH]; simpl; [lia|].
  etrans; [|apply quote_char_length]. lia.
Qed.

Lemma spaces_length n k : String.length (spaces n k) = (n + String.length k)%nat.
Proof. induction n as [|n IH]; simpl; [done|]. by rewrite IH. Qed.

Lemma newline_length gap indent k :
  (String.length k ≤ String.length (newline gap indent k))%nat.
Proof. destruct gap; simpl; [done|]. rewrite spaces_length. lia. Qed.

Lemma colon_length gap k :
  (S (String.length k) ≤ String.length (colon gap k))%nat.
Proof. destruct gap; simpl; lia. Qed.

Lemma after_item_length gap indent close next t :
  next = Some t →
  (S (String.length t) ≤ String.length (after_item gap indent close next))%nat.
Proof. intros ->. simpl. apply le_n_S, newline_length. Qed.

Lemma print_items_length gap inner close l t :
  (∀ x, x ∈ l → ∀ k, (weight x + String.length k
                      ≤ String.length (print_value gap inner x k))%nat) →
  print_items gap inner close l = Some t →
  (weight_items l + String.length close ≤ S (String.length t))%nat.
Proof.
  revert t. induction l as [|x l IH]; intros t Hx Ht; [done|].
  simpl in Ht. injection Ht as <-. simpl.
  pose proof (Hx x ltac:(left)
    (after_item gap inner close (print_items gap inner close l))) as Hlen.
  destruct (print_items gap inner close l) as [t'|] eqn:Ht'.
  - pose proof (after_item_length gap inner close _ t' eq_refl).
    specialize (IH t' ltac:(intros; apply Hx; by right) eq_refl).
    lia.
  - destruct l; [|done]. simpl in *. lia.
Qed.

Lemma print_members_length gap inner close l t :
  (∀ kx, kx ∈ l → ∀ k, (weight kx.2 + String.length k
                      ≤ String.length (print_value gap inner kx.2 k))%nat) →
  print_members gap inner close l = Some t →
  (weight_members l + String.length close ≤ S (String.length t))%nat.
Proof.
  revert t. induction l as [|[key x] l IH]; intros t Hx Ht; [done|].
  simpl in Ht. injection Ht as <-. simpl.
  pose proof (Hx (key, x) ltac:(left)
    (after_item gap inner close (print_members gap inner close l))) as Hlen.
  simpl in Hlen.
  pose proof (quote_length key (colon gap (print_value gap inner x
    (after_item gap inner close (print_members gap inner close l))))) as Hq.
  pose proof (colon_length gap (print_value gap inner x
    (after_item gap inner close (print_members gap inner close l)))) as Hc.
  unfold quote in Hq. cbn [String.length] in Hq.
  destruct (print_members gap inner close l) as [t'|] eqn:Ht'.
  - pose proof (after_item_length gap inner close _ t' eq_refl).
    specialize (IH t' ltac:(intros; apply Hx; by right) eq_refl).
    lia.
  - destruct l as [|[]]; [|done]. simpl in *. lia.
Qed.

Lemma weight_items_elem x l : x ∈ l → (weight x < weight (JArray l))%nat.
Proof.
  rewrite weight_array. induction 1 as [x l|x y l _ IH]; simpl in *; lia.
Qed.

Lemma weight_members_elem key x m :
  m !! key = Some x → (weight x < weight (JObject m))%nat.
Proof.
  rewrite weight_object, <-elem_of_map_to_list.
  generalize (map_to_list m). intros l Hin.
  change x with (key, x).2. generalize dependent (key, x). clear.
  intros kx. induction 1 as [[] l|[] [] l _ IH]; simpl in *; lia.
Qed.

Lemma print_value_length v gap indent k :
  (weight v + String.length k
   ≤ String.length (print_value gap indent v k))%nat.
Proof.
  revert gap indent k.
  induction (Nat.lt_wf_0_projected weight v) as [v _ IH]. intros gap indent k.
  destruct v as [|[]|n|s|l|m].
  - simpl. cbv [String.append]. lia.
  - simpl. cbv [String.append]. lia.
  - simpl. cbv [String.append]. lia.
  - apply print_number_length.
  - pose proof (quote_length s k). simpl in *. lia.
  - rewrite print_value_array, weight_array.
    destruct (print_items _ _ _ l) as [t|] eqn:Ht.
    + apply print_items_length in Ht.
      * pose proof (newline_length gap indent (String "]" k)).
        pose proof (newline_length gap (indent + gap) t). simpl in *. lia.
      * intros x Hx k'. by apply IH, weight_items_elem.
    + destruct l; [|done]. simpl. cbv [String.append]. lia.
  - rewrite print_value_object, weight_object.
    destruct (print_members _ _ _ (map_to_list m)) as [t|] eqn:Ht.
    + apply print_members_length in Ht.
      * pose proof (newline_length gap indent (String "}" k)).
        pose proof (newline_length gap (indent + gap) t). simpl in *. lia.
      * intros [key x] Hx%elem_of_map_to_list k'.
        by eapply IH, weight_members_elem.
    + destruct (map_to_list m) as [|[]]; [|done].
      simpl. cbv [String.append]. lia.
Qed.

(** [JSON.parse(JSON.stringify(v, null, space))] is [v]. *)
Lemma parse_stringify space v : parse (stringify space v) = Some v.
Proof.
  unfold parse, stringify.
  destruct (parse_print_fuel (S (String.length (print_value space 0 v ""))))
    as (Hv & _).
  rewrite Hv; [done| |done].
  pose proof (print_value_length v space 0 ""). lia.
Qed.

End json_parse_stringify.

(** ** The files *)

Section files_facts.

Implicit Types (fs : files) (path text : string).

Lemma files_lookup_insert_eq fs path text :
  <[path:=text]> fs !! path = Some text.
Proof. apply (lookup_insert_eq (contents fs)). Qed.

Lemma files_lookup_insert_ne fs path path' text :
  path ≠ path' → <[path:=text]> fs !! path' = fs !! path'.
Proof. apply (lookup_insert_ne (contents fs)). Qed.

Lemma files_insert_insert_eq fs path text text' :
  <[path:=text]> (<[path:=text']> fs) = <[path:=text]> fs.
Proof.
  unfold insert, files_insert. simpl. f_equal.
  apply (insert_insert_eq (contents fs)).
Qed.

Lemma in_directory_insert fs path text :
  in_directory (<[path:=text]> fs) = in_directory fs.
Proof. reflexivity. Qed.

End files_facts.

(** ** Reading and writing the file *)

Section storage.

Import Js LocalJSONDB.

Variable this : LocalJSONDB.t.

Lemma read_unfold fs :
  read this fs =
  match fs !! filePath this with
  | None => (Throw ENOENT, fs)
  | Some text =>
      match JSON.parse text with
      | Some v => (Return v, fs)
      | None => (Throw SyntaxError, fs)
      end
  end.
Proof.
  unfold read, mbind, M_bind, Fs.readFileSync, JSON_parse.
  destruct (fs !! filePath this) as [text|]; [|done].
  by destruct (JSON.parse text).
Qed.

Lemma read_frame fs : (read this fs).2 = fs.
Proof.
  rewrite read_unfold. destruct (fs !! filePath this) as [text|]; [|done].
  by destruct (JSON.parse text).
Qed.

Lemma read_returns fs v fs' :
  read this fs = (Return v, fs') →
  fs' = fs ∧ ∃ text, fs !! filePath this = Some text ∧ JSON.parse text = Some v.
Proof.
  rewrite read_unfold. destruct (fs !! filePath this) as [text|]; [|done].
  destruct (JSON.parse text) as [w|] eqn:Hp; [|done].
  intros [= -> ->]. eauto.
Qed.

Lemma read_exists fs v :
  read this fs = (Return v, fs) → is_Some (fs !! filePath this).
Proof. intros (_ & text & -> & _)%read_returns. by eexists. Qed.

Lemma write_unfold data fs :
  write this data fs =
  if bool_decide (is_Some (fs !! filePath this)
                  ∨ filePath this ∈ in_directory fs)
  then (Return tt, <[filePath this:=JSON.stringify 2 data]> fs)
  else (Throw ENOENT, fs).
Proof. reflexivity. Qed.

(** Writing over the file that is there succeeds. *)
Lemma write_existing data fs :
  is_Some (fs !! filePath this) →
  write this data fs
  = (Return tt, <[filePath this:=JSON.stringify 2 data]> fs).
Proof.
  intros Hsome. rewrite write_unfold. by rewrite bool_decide_eq_true_2 by auto.
Qed.

(** What [write] stored is what [read] gives back. *)
Lemma read_after_write data fs :
  read this (<[filePath this:=JSON.stringify 2 data]> fs)
  = (Return data, <[filePath this:=JSON.stringify 2 data]> fs).
Proof. by rewrite read_unfold, files_lookup_insert_eq, parse_stringify. Qed.

End storage.

(** ** The array methods *)

Section array_methods.

Import Js.

Variable callback : value → completion bool.

Lemma findIndex_from_none l i :
  Forall (λ x, callback x = Return false) l →
  findIndex_from callback l i = Return (-1).
Proof.
  intros Hl. revert i. induction Hl as [|x l Hx _ IH]; intros i; [done|].
  simpl. by rewrite Hx.
Qed.

Lemma findIndex_from_first pre x post i :
  Forall (λ y, callback y = Return false) pre →
  callback x = Return true →
  findIndex_from callback (pre ++ x :: post) i
  = Return (i + Z.of_nat (List.length pre)).
Proof.
  intros Hpre Hx. revert i.
  induction Hpre as [|y pre Hy _ IH]; intros i; simpl.
  - rewrite Hx. f_equal. lia.
  - rewrite Hy, IH. f_equal. lia.
Qed.

(** An index that [findIndex] returns is [-1] or the position of the first
    element the callback accepts. *)
Lemma findIndex_from_returns l i index :
  findIndex_from callback l i = Return index →
  (index = -1 ∧ Forall (λ x, callback x = Return false) l)
  ∨ ∃ pre x post,
      l = pre ++ x :: post ∧ index = i + Z.of_nat (List.length pre)
      ∧ Forall (λ y, callback y = Return false) pre
      ∧ callback x = Return true.
Proof.
  revert i. induction l as [|y l IH]; intros i; simpl.
  { intros [= <-]. by left. }
  destruct (callback y) as [[]|e] eqn:Hy; [| |done].
  - intros [= <-]. right. exists [], y, l. simpl. split_and!; [done|lia|done..].
  - intros [[-> Hl]|(pre & x & post & -> & -> & Hpre & Hx)]%IH.
    + left. split; [done|]. by constructor.
    + right. exists (y :: pre), x, post. simpl. split_and!; [done|lia| |done].
      by constructor.
Qed.

Lemma filter_list_total (keep : value → bool) l :
  Forall (λ x, callback x = Return (keep x)) l →
  filter_list callback l = Return (List.filter keep l).
Proof.
  induction 1 as [|x l Hx _ IH]; [done|].
  simpl. by rewrite Hx, IH.
Qed.

Lemma filter_list_length l l' :
  filter_list callback l = Return l' →
  (List.length l' ≤ List.length l)%nat
  ∧ (List.length l' = List.length l →
     l' = l ∧ Forall (λ x, callback x = Return true) l).
Proof.
  revert l'. induction l as [|x l IH]; intros l'; simpl.
  { intros [= <-]. by split. }
  destruct (callback x) as [b|e] eqn:Hx; [|done].
  destruct (filter_list callback l) as [l0|e]; [|done].
  intros [= <-]. destruct (IH l0 eq_refl) as [Hle Heq].
  destruct b; simpl.
  - split; [lia|]. intros [= Hlen]. destruct (Heq Hlen) as [-> Hall].
    split; [done|]. by constructor.
  - split; [lia|]. intros Hlen. lia.
Qed.

End array_methods.

(** ** The methods, call by call *)

Section methods.

Import Js LocalJSONDB.

Variable this : LocalJSONDB.t.

Lemma constructor_unfold path fs :
  constructor path fs =
  if bool_decide (is_Some (fs !! path))
  then (Return {| filePath := path |}, fs)
  else if bool_decide (path ∈ in_directory fs)
  then (Return {| filePath := path |}, <[path:="[]"]> fs)
  else (Throw ENOENT, fs).
Proof.
  unfold constructor, mbind, M_bind, Fs.existsSync, Fs.writeFileSync.
  case_bool_decide as Hsome; simpl; [done|].
  destruct (decide (path ∈ in_directory fs)) as [Hdir|Hdir].
  - by rewrite (bool_decide_eq_true_2 (_ ∨ _)), (bool_decide_eq_true_2 (_ ∈ _))
      by auto.
  - by rewrite (bool_decide_eq_false_2 (_ ∨ _)), (bool_decide_eq_false_2 (_ ∈ _))
      by (done || by intros [?|?]).
Qed.

(** Every method starts with [read]; this splits on how it ends. *)
Lemma read_cases fs :
  (∃ v, read this fs = (Return v, fs)) ∨ (∃ e, read this fs = (Throw e, fs)).
Proof.
  pose proof (read_frame this fs) as Hfs.
  destruct (read this fs) as [[v|e] fs']; simpl in Hfs; subst fs'; eauto.
Qed.

Lemma create_unfold now record fs l :
  read this fs = (Return (JArray l), fs) →
  let newRecord := JObject (spread {["id" := JNumber now]} record) in
  create this now record fs
  = (Return newRecord,
     <[filePath this:=JSON.stringify 2 (JArray (l ++ [newRecord]))]> fs).
Proof.
  intros Hr. unfold create, mbind, M_bind. rewrite Hr. simpl.
  by rewrite write_existing by by eapply read_exists.
Qed.

Lemma create_returns now record fs res fs' :
  create this now record fs = (Return res, fs') →
  ∃ l, read this fs = (Return (JArray l), fs)
       ∧ res = JObject (spread {["id" := JNumber now]} record)
       ∧ fs' = <[filePath this:=JSON.stringify 2 (JArray (l ++ [res]))]> fs.
Proof.
  destruct (read_cases fs) as [[v Hr]|[e Hr]];
    unfold create, mbind, M_bind; rewrite Hr; [|done].
  destruct v as [| | | |l|]; try done.
  simpl. rewrite write_existing by by eapply read_exists.
  intros [= <- <-]. by exists l.
Qed.

Lemma update_not_found id updatedFields fs l :
  read this fs = (Return (JArray l), fs) →
  Forall (λ x, id_is id x = Return false) l →
  update this id updatedFields fs = (Return JNull, fs).
Proof.
  intros Hr Hl. unfold update, mbind, M_bind. rewrite Hr. simpl.
  by rewrite findIndex_from_none.
Qed.

Lemma update_found id updatedFields fs pre x post :
  read this fs = (Return (JArray (pre ++ x :: post)), fs) →
  Forall (λ y, id_is id y = Return false) pre →
  id_is id x = Return true →
  let updatedRecord :=
    JObject (spread (spread ∅ (Some x)) updatedFields) in
  update this id updatedFields fs
  = (Return updatedRecord,
     <[filePath this:=JSON.stringify 2 (JArray (pre ++ updatedRecord :: post))]>
       fs).
Proof.
  intros Hr Hpre Hx. unfold update, mbind, M_bind. rewrite Hr. simpl.
  rewrite findIndex_from_first by done. simpl.
  rewrite Z.add_0_l.
  destruct (Z.eqb_spec (Z.of_nat (List.length pre)) (-1)) as [Heq|_]; [lia|].
  rewrite Nat2Z.id.
  rewrite list_lookup_middle by done.
  rewrite write_existing by by eapply read_exists.
  unfold mret, M_ret. by rewrite insert_app_r_alt, Nat.sub_diag by done.
Qed.

Lemma update_returns id updatedFields fs res fs' :
  update this id updatedFields fs = (Return res, fs') →
  ∃ l, read this fs = (Return (JArray l), fs)
    ∧ ((res = JNull ∧ fs' = fs ∧ Forall (λ x, id_is id x = Return false) l)
       ∨ ∃ pre x post,
           l = pre ++ x :: post
           ∧ Forall (λ y, id_is id y = Return false) pre
           ∧ id_is id x = Return true
           ∧ res = JObject (spread (spread ∅ (Some x)) updatedFields)
           ∧ fs' = <[filePath this:=
                       JSON.stringify 2 (JArray (pre ++ res :: post))]> fs).
Proof.
  destruct (read_cases fs) as [[v Hr]|[e Hr]]; [|
    unfold update, mbind, M_bind; by rewrite Hr].
  destruct v as [| | | |l|];
    try (unfold update, mbind, M_bind; by rewrite Hr).
  intros Hu. exists l. split; [done|].
  destruct (findIndex_from (id_is id) l 0) as [index|e] eqn:Hi.
  - apply findIndex_from_returns in Hi
      as [[-> Hl]|(pre & x & post & -> & -> & Hpre & Hx)].
    + rewrite (update_not_found _ _ _ l) in Hu by done.
      injection Hu as <- <-. by left.
    + rewrite (update_found _ _ _ pre x post) in Hu by done.
      injection Hu as <- <-. right. by exists pre, x, post.
  - unfold update, mbind, M_bind in Hu. rewrite Hr in Hu. simpl in Hu.
    by rewrite Hi in Hu.
Qed.

Lemma delete_unfold id fs l l' :
  read this fs = (Return (JArray l), fs) →
  filter_list (id_is_not id) l = Return l' →
  delete this id fs =
  if decide (List.length l' = List.length l) then (Return false, fs)
  else (Return true, <[filePath this:=JSON.stringify 2 (JArray l')]> fs).
Proof.
  intros Hr Hf. unfold delete, mbind, M_bind. rewrite Hr. simpl.
  rewrite Hf. simpl.
  destruct (decide (List.length l' = List.length l)) as [Heq|Hne].
  - by rewrite Heq, bool_decide_eq_true_2.
  - rewrite bool_decide_eq_false_2 by (by intros [= ?%Nat2Z.inj]).
    by rewrite write_existing by by eapply read_exists.
Qed.

Lemma delete_not_found id fs l :
  read this fs = (Return (JArray l), fs) →
  Forall (λ x, id_is_not id x = Return true) l →
  delete this id fs = (Return false, fs).
Proof.
  intros Hr Hl. rewrite (delete_unfold id fs l l Hr).
  - by rewrite decide_True.
  - clear Hr. induction Hl as [|x l Hx _ IH]; [done|].
    simpl. by rewrite Hx, IH.
Qed.

Lemma delete_returns id fs b fs' :
  delete this id fs = (Return b, fs') →
  ∃ l l', read this fs = (Return (JArray l), fs)
    ∧ filter_list (id_is_not id) l = Return l'
    ∧ ((b = false ∧ fs' = fs ∧ l' = l)
       ∨ (b = true ∧ List.length l' ≠ List.length l
          ∧ fs' = <[filePath this:=JSON.stringify 2 (JArray l')]> fs)).
Proof.
  destruct (read_cases fs) as [[v Hr]|[e Hr]]; [|
    unfold delete, mbind, M_bind; by rewrite Hr].
  destruct v as [| | | |l|];
    try (unfold delete, mbind, M_bind; by rewrite Hr).
  destruct (filter_list (id_is_not id) l) as [l'|e] eqn:Hf.
  - rewrite (delete_unfold _ _ l l') by done.
    destruct (decide _) as [Heq|Hne]; intros [= <- <-]; exists l, l'.
    + split_and!; [done..|]. left. split_and!; [done..|].
      by apply filter_list_length in Hf as [_ [-> _]].
    + split_and!; [done..|]. by right.
  - unfold delete, mbind, M_bind. rewrite Hr. simpl. by rewrite Hf.
Qed.

Lemma query_unfold filterFn fs l :
  read this fs = (Return (JArray l), fs) →
  query this filterFn fs =
  match filter_list filterFn l with
  | Return l' => (Return (JArray l'), fs)
  | Throw e => (Throw e, fs)
  end.
Proof.
  intros Hr. unfold query, mbind, M_bind. rewrite Hr. simpl.
  unfold lift. by destruct (filter_list filterFn l).
Qed.

Lemma query_frame filterFn fs : (query this filterFn fs).2 = fs.
Proof.
  destruct (read_cases fs) as [[v Hr]|[e Hr]];
    unfold query, mbind, M_bind; by rewrite Hr.
Qed.

End methods.

(** ** Records and identifiers *)

Section identifiers.

Import Js.

Lemma strict_equals_eq x y : strict_equals x y = true → x = y.
Proof.
  destruct x as [[|a|a|a|a|a]|], y as [[|b|b|b|b|b]|]; simpl; try done.
  - by intros ->%Bool.eqb_prop.
  - by intros ->%Z.eqb_eq.
  - by intros ->%String.eqb_eq.
Qed.

Lemma id_is_record id x :
  is_record x → id_is id x = Return (has_id id x).
Proof. by destruct x. Qed.

Lemma id_is_not_record id x :
  is_record x → id_is_not id x = Return (negb (has_id id x)).
Proof. by destruct x. Qed.

Lemma id_is_absent id l :
  Forall is_record l → Forall (λ x, has_id id x = false) l →
  Forall (λ x, id_is id x = Return false) l.
Proof.
  intros Hrec Hid. apply Forall_forall. intros x Hx.
  rewrite Forall_forall in Hrec, Hid.
  rewrite id_is_record by auto. f_equal. auto.
Qed.

Lemma id_is_not_absent id l :
  Forall is_record l → Forall (λ x, has_id id x = false) l →
  Forall (λ x, id_is_not id x = Return true) l.
Proof.
  intros Hrec Hid. apply Forall_forall. intros x Hx.
  rewrite Forall_forall in Hrec, Hid.
  rewrite id_is_not_record by auto. f_equal. rewrite Hid by done. done.
Qed.

Lemma has_id_eq id m : has_id id (JObject m) = true → m !! "id" = id.
Proof. apply strict_equals_eq. Qed.

Lemma has_id_absent id l :
  Forall is_record l → (∀ m, JObject m ∈ l → m !! "id" ≠ id) →
  Forall (λ x, has_id id x = false) l.
Proof.
  intros Hrec Hne. apply Forall_forall. intros x Hx.
  destruct (has_id id x) eqn:Hhas; [|done].
  rewrite Forall_forall in Hrec. specialize (Hrec x Hx).
  destruct x as [| | | | |m]; try done.
  by apply has_id_eq, Hne in Hhas.
Qed.

End identifiers.

(** ** How a call can end *)

Section outcomes.

Import Js LocalJSONDB.

Variable this : LocalJSONDB.t.

(** A failing [read] fails every method the same way. *)
Lemma read_throw_propagates e fs :
  read this fs = (Throw e, fs) →
  (∀ now record, create this now record fs = (Throw e, fs))
  ∧ (∀ id updatedFields, update this id updatedFields fs = (Throw e, fs))
  ∧ (∀ id, delete this id fs = (Throw e, fs))
  ∧ (∀ filterFn, query this filterFn fs = (Throw e, fs)).
Proof.
  intros Hr. split_and!; intros;
    unfold create, update, delete, query, mbind, M_bind; by rewrite Hr.
Qed.

(** No method of an array reaches a value that is not an array. *)
Lemma not_array_throws v fs :
  read this fs = (Return v, fs) →
  (∀ l, v ≠ JArray l) →
  (∀ now record, create this now record fs = (Throw TypeError, fs))
  ∧ (∀ id updatedFields,
       update this id updatedFields fs = (Throw TypeError, fs))
  ∧ (∀ id, delete this id fs = (Throw TypeError, fs))
  ∧ (∀ filterFn, query this filterFn fs = (Throw TypeError, fs)).
Proof.
  intros Hr Hv.
  destruct v as [| | | |l|]; try (by destruct (Hv l));
    (split_and!; intros;
     unfold create, update, delete, query, mbind, M_bind; by rewrite Hr).
Qed.

Lemma array_or_not v : (∃ l, v = JArray l) ∨ (∀ l, v ≠ JArray l).
Proof. destruct v; eauto. Qed.

(** What [read] can give: a failure, a value that is not an array, or an
    array. *)
Lemma read_outcome fs :
  (∃ e, read this fs = (Throw e, fs))
  ∨ (∃ v, read this fs = (Return v, fs) ∧ ∀ l, v ≠ JArray l)
  ∨ (∃ l, read this fs = (Return (JArray l), fs)).
Proof.
  destruct (read_cases this fs) as [[v Hr]|[e Hr]]; [|eauto].
  destruct (array_or_not v) as [[l ->]|Hv]; eauto.
Qed.

(** A call throws and leaves the files, or returns and leaves them, or
    returns after it wrote the file of the store. *)
Lemma create_outcome now record fs :
  (∃ e, create this now record fs = (Throw e, fs))
  ∨ ∃ res text,
      create this now record fs = (Return res, <[filePath this:=text]> fs).
Proof.
  destruct (read_outcome fs) as [[e Hr]|[(v & Hr & Hv)|[l Hr]]].
  - left. exists e. by apply read_throw_propagates.
  - left. exists TypeError. by apply (not_array_throws v fs Hr).
  - right. eexists _, _. by apply create_unfold.
Qed.

Lemma update_outcome id updatedFields fs :
  (∃ e, update this id updatedFields fs = (Throw e, fs))
  ∨ (∃ res, update this id updatedFields fs = (Return res, fs))
  ∨ ∃ res text,
      update this id updatedFields fs
      = (Return res, <[filePath this:=text]> fs).
Proof.
  destruct (read_outcome fs) as [[e Hr]|[(v & Hr & Hv)|[l Hr]]].
  - left. exists e. by apply read_throw_propagates.
  - left. exists TypeError. by apply (not_array_throws v fs Hr).
  - destruct (findIndex_from (id_is id) l 0) as [index|e] eqn:Hi.
    + apply findIndex_from_returns in Hi
        as [[-> Hl]|(pre & x & post & -> & -> & Hpre & Hx)].
      * right. left. eexists. by apply (update_not_found this _ _ _ l).
      * right. right. eexists _, _. by apply update_found.
    + left. exists e. unfold update, mbind, M_bind. rewrite Hr. simpl.
      by rewrite Hi.
Qed.

Lemma delete_outcome id fs :
  (∃ e, delete this id fs = (Throw e, fs))
  ∨ (∃ b, delete this id fs = (Return b, fs))
  ∨ ∃ b text, delete this id fs = (Return b, <[filePath this:=text]> fs).
Proof.
  destruct (read_outcome fs) as [[e Hr]|[(v & Hr & Hv)|[l Hr]]].
  - left. exists e. by apply read_throw_propagates.
  - left. exists TypeError. by apply (not_array_throws v fs Hr).
  - destruct (filter_list (id_is_not id) l) as [l'|e] eqn:Hf.
    + rewrite (delete_unfold this id fs l l' Hr Hf).
      destruct (decide _); eauto 6.
    + left. exists e. unfold delete, mbind, M_bind. rewrite Hr. simpl.
      by rewrite Hf.
Qed.

Lemma exec_outcome o fs :
  (∃ e, exec this o fs = (Throw e, fs))
  ∨ (∃ res, exec this o fs = (Return res, fs))
  ∨ ∃ res text, exec this o fs = (Return res, <[filePath this:=text]> fs).
Proof.
  destruct o as [now record|id updatedFields|id]; simpl.
  - destruct (create_outcome now record fs) as [?|?]; eauto.
  - apply update_outcome.
  - unfold mbind, M_bind.
    destruct (delete_outcome id fs) as [[e ->]|[[b ->]|(b & text & ->)]];
      eauto 6.
Qed.

End outcomes.

(** ** The claims *)

Import Js LocalJSONDB.

(** C8, as the code has it. Constructing a store on a path where there is
    no file creates the file with the serialised empty document, the text
    [[]], when the directory of the path exists, and a [read()] on the fresh
    store then returns the empty sequence; when the directory does not
    exist the constructor throws the error of [fs.writeFileSync] and creates
    nothing. *)
Theorem constructor_creates_empty path fs :
  fs !! path = None →
  (path ∈ in_directory fs →
   constructor path fs
   = (Return {| filePath := path |},
      <[path:=JSON.stringify 0 (JArray [])]> fs)
   ∧ JSON.stringify 0 (JArray []) = "[]"
   ∧ read {| filePath := path |} (constructor path fs).2
     = (Return (JArray []), <[path:="[]"]> fs))
  ∧ (path ∉ in_directory fs → constructor path fs = (Throw ENOENT, fs)).
Proof.
  intros Hnone. rewrite constructor_unfold.
  rewrite bool_decide_eq_false_2 by (rewrite Hnone; by intros [? ?]).
  split; intros Hdir.
  - rewrite bool_decide_eq_true_2 by done. split_and!; [done..|].
    simpl. by rewrite read_unfold, files_lookup_insert_eq.
  - by rewrite bool_decide_eq_false_2 by done.
Qed.

Lemma constructor_creates_empty_witness :
  constructor "db.json" empty_directory
  = (Return db, <["db.json":="[]"]> empty_directory)
  ∧ read db (<["db.json":="[]"]> empty_directory)
    = (Return (JArray []), <["db.json":="[]"]> empty_directory).
Proof.
  destruct (constructor_creates_empty "db.json" empty_directory) as [Hc _];
    [reflexivity|].
  destruct Hc as (Hc & _ & Hr); [reflexivity|].
  split; [exact Hc|]. rewrite Hc in Hr. exact Hr.
Defined.

(** C8 fails as stated: with no file at [nodir/db.json] and no directory
    [nodir], the constructor throws and there is still no file. The
    directory of [db.json] exists here, and the same files take a store at
    that path. *)
Lemma constructor_needs_directory :
  empty_directory !! "nodir/db.json" = None
  ∧ constructor "nodir/db.json" empty_directory = (Throw ENOENT, empty_directory)
  ∧ (constructor "nodir/db.json" empty_directory).2 !! "nodir/db.json" = None
  ∧ (constructor "db.json" empty_directory).1 = Return db.
Proof. by split_and!. Qed.

(** C9. Constructing a store on a path where a file exists leaves the
    files as they are, whatever the content of that file. *)
Theorem constructor_keeps_file path content fs :
  fs !! path = Some content →
  constructor path fs = (Return {| filePath := path |}, fs)
  ∧ (constructor path fs).2 !! path = Some content.
Proof.
  intros Hsome. rewrite constructor_unfold.
  rewrite bool_decide_eq_true_2 by (rewrite Hsome; by eexists).
  by split.
Qed.

Lemma constructor_keeps_file_witness :
  constructor "db.json" {["db.json" := "not json"]}
  = (Return db, {["db.json" := "not json"]}).
Proof.
  apply (constructor_keeps_file "db.json" "not json"). reflexivity.
Defined.

(** C2. The code breaks the claim on a file that holds valid JSON other
    than an array: with the JSON object [{}] in the file, [read()] throws
    nothing and returns that object, which is not an array, where its own
    documentation announces an array. *)
Lemma read_returns_non_array :
  read db {["db.json" := "{}"]} = (Return (JObject ∅), {["db.json" := "{}"]})
  ∧ ∀ l, JObject ∅ ≠ JArray l.
Proof. split; [reflexivity|discriminate]. Qed.

(** C1. The code breaks the claim when [fields] has an [id]: the spread
    comes after the generated id and overwrites it. With the clock at 1000,
    creating [{id: 5, name: "ada"}] returns a record whose [id] is 5, not
    1000, and creating [{id: null}] returns one whose [id] is [null]. *)
Lemma create_keeps_supplied_id :
  (create db 1000 (Some (JObject ada)) {["db.json" := "[]"]}).1
  = Return (JObject ada)
  ∧ ada !! "id" = Some (JNumber 5)
  ∧ JNumber 5 ≠ JNumber 1000
  ∧ (create db 1000 (Some (JObject {["id" := JNull]})) {["db.json" := "[]"]}).1
    = Return (JObject {["id" := JNull]}).
Proof. split_and!; [reflexivity|reflexivity|discriminate|reflexivity]. Qed.

(** One call that returns: what it computed, what it left in the files,
    and what the file then deserialises to. *)
Lemma exec_computed this o fs res fs' :
  exec this o fs = (Return res, fs') →
  ∃ l doc persisted,
    read this fs = (Return (JArray l), fs)
    ∧ computed o l res doc persisted
    ∧ fs' = (if persisted
             then <[filePath this:=JSON.stringify 2 (JArray doc)]> fs
             else fs)
    ∧ read this fs' = (Return (JArray doc), fs').
Proof.
  destruct o as [now record|id updatedFields|id]; simpl.
  - intros (l & Hr & -> & ->)%create_returns.
    eexists l, _, true. split; [done|]. split; [by split_and!|].
    split; [done|apply read_after_write].
  - intros (l & Hr & [(-> & -> & Hl)|(pre & x & post & -> & Hpre & Hx & Hres & ->)])
      %update_returns.
    + exists l, l, false. split; [done|]. split; [by left|]. by split.
    + eexists _, _, true. split; [done|]. split.
      { right. by exists pre, x, post. }
      split; [done|apply read_after_write].
  - unfold mbind, M_bind.
    destruct (delete this id fs) as [[b|e] fs1] eqn:Hd; [|done].
    intros [= <- <-].
    apply delete_returns in Hd
      as (l & l' & Hr & Hf & [(-> & -> & ->)|(-> & Hlen & ->)]).
    + exists l, l, false. split; [done|]. split; [|by split].
      split_and!; [done| |done]. by rewrite Nat.eqb_refl.
    + exists l, l', true. split; [done|]. split.
      { split_and!; [done| |done]. by apply Nat.eqb_neq in Hlen as ->. }
      split; [done|apply read_after_write].
Qed.

(** C3. Along every sequence of create, update and delete calls, every
    call that returns has loaded an array, has computed its result and the
    document it holds in memory from it as [computed] says, and leaves a
    file that deserialises to exactly that document: the file with the
    serialised document when the call persisted, the files untouched (the
    document being the one loaded) when it found no record. A call that
    throws leaves the files as they were. The steps are those of the
    sequence, each starting from the files the one before left. *)
Theorem read_your_writes this ops fs :
  Forall (λ st,
      (∀ res,
         outcome st = Return res →
         ∃ l doc persisted,
           read this (before st) = (Return (JArray l), before st)
           ∧ computed (step_op st) l res doc persisted
           ∧ after st
             = (if persisted
                then <[filePath this:=JSON.stringify 2 (JArray doc)]>
                       (before st)
                else before st)
           ∧ read this (after st) = (Return (JArray doc), after st))
      ∧ (∀ e, outcome st = Throw e → after st = before st))
    (run this ops fs)
  ∧ step_op <$> run this ops fs = ops
  ∧ before <$> run this ops fs
    = take (List.length ops) (fs :: (after <$> run this ops fs)).
Proof.
  revert fs. induction ops as [|o ops IH]; intros fs; simpl; [done|].
  destruct (IH (exec this o fs).2) as (IH1 & IH2 & IH3).
  split_and!; [|by f_equal|by f_equal].
  constructor; [|done]. simpl. split.
  - intros res Hres.
    apply (exec_computed this o fs res (exec this o fs).2).
    rewrite <-Hres. by destruct (exec this o fs).
  - intros e He.
    destruct (exec_outcome this o fs)
      as [[e' Ho]|[[res Ho]|(res & text & Ho)]]; rewrite Ho in He |- *;
      by simplify_eq/=.
Qed.

(** C5. When no record of the document has the given id, [update] returns
    [null] without throwing and leaves the files as they were. *)
Theorem update_absent_id this id partialFields fs l :
  read this fs = (Return (JArray l), fs) →
  Forall is_record l →
  Forall (λ x, has_id id x = false) l →
  update this id partialFields fs = (Return JNull, fs).
Proof.
  intros Hr Hrec Hid. apply (update_not_found this _ _ _ l); [done|].
  by apply id_is_absent.
Qed.

Lemma update_absent_id_witness :
  update db (Some (JNumber 7)) (Some (JObject {["name" := JString "eve"]}))
    (stored (JArray [JObject ada; JObject bob]))
  = (Return JNull, stored (JArray [JObject ada; JObject bob])).
Proof.
  apply (update_absent_id db (Some (JNumber 7)) _ _ [JObject ada; JObject bob]).
  - vm_compute. reflexivity.
  - repeat constructor.
  - repeat constructor.
Defined.

(** C4. When the document has a record with the given id, [update] takes
    the first one, returns it with [partialFields] merged over it (a field of
    [partialFields] replaces the field of that name, [id] included; the other
    fields stay), and persists the document with the merged record in the
    place of the old one and every other record as it was. *)
Theorem update_merges_first this id partialFields fs pre r post :
  read this fs = (Return (JArray (pre ++ JObject r :: post)), fs) →
  Forall is_record pre →
  Forall (λ x, has_id id x = false) pre →
  has_id id (JObject r) = true →
  ∃ merged fs',
    (∀ key, merged !! key
            = match partialFields !! key with
              | Some x => Some x
              | None => r !! key
              end)
    ∧ update this id (Some (JObject partialFields)) fs
      = (Return (JObject merged), fs')
    ∧ fs' = <[filePath this:=
                JSON.stringify 2 (JArray (pre ++ JObject merged :: post))]> fs
    ∧ read this fs' = (Return (JArray (pre ++ JObject merged :: post)), fs').
Proof.
  intros Hr Hrec Hid Hx.
  pose proof (update_found this id (Some (JObject partialFields)) fs
                pre (JObject r) post Hr) as Hu.
  simpl in Hu.
  rewrite Hu; [|by apply id_is_absent|by rewrite id_is_record, Hx].
  eexists (spread (spread ∅ (Some (JObject r))) (Some (JObject partialFields))),
    _.
  split_and!; [|done|done|apply read_after_write].
  intros key. unfold spread, own_props.
  rewrite lookup_union, (right_id_L ∅ (∪)).
  by destruct (partialFields !! key), (r !! key).
Qed.

Lemma update_merges_first_witness :
  ∃ merged fs',
    (∀ key, merged !! key
            = match ({["name" := JString "eve"]} : gmap string value) !! key with
              | Some x => Some x
              | None => bob !! key
              end)
    ∧ update db (Some (JNumber 6)) (Some (JObject {["name" := JString "eve"]}))
        (stored (JArray [JObject ada; JObject bob; JObject bob]))
      = (Return (JObject merged), fs')
    ∧ fs' = <["db.json":=
                JSON.stringify 2
                  (JArray ([JObject ada] ++ JObject merged :: [JObject bob]))]>
              (stored (JArray [JObject ada; JObject bob; JObject bob]))
    ∧ read db fs'
      = (Return (JArray ([JObject ada] ++ JObject merged :: [JObject bob])),
         fs').
Proof.
  apply (update_merges_first db (Some (JNumber 6)) {["name" := JString "eve"]}
           (stored (JArray [JObject ada; JObject bob; JObject bob]))
           [JObject ada] bob [JObject bob]).
  - vm_compute. reflexivity.
  - repeat constructor.
  - repeat constructor.
  - reflexivity.
Defined.

(** C6. [delete(id)] keeps the records that do not have the given id and
    drops every record that has it, not only the first. When none has it,
    the call returns [false] and leaves the files as they were; otherwise it
    persists the records kept and returns [true], and a [read()] after it
    returns the records kept, none of which has the id. *)
Theorem delete_removes_every_match this id fs l :
  read this fs = (Return (JArray l), fs) →
  Forall is_record l →
  let kept := List.filter (λ x, negb (has_id id x)) l in
  (Forall (λ x, has_id id x = false) l →
   delete this id fs = (Return false, fs))
  ∧ (Exists (λ x, has_id id x = true) l →
     delete this id fs
     = (Return true, <[filePath this:=JSON.stringify 2 (JArray kept)]> fs)
     ∧ read this (<[filePath this:=JSON.stringify 2 (JArray kept)]> fs)
       = (Return (JArray kept),
          <[filePath this:=JSON.stringify 2 (JArray kept)]> fs)
     ∧ ∀ x, x ∈ kept ↔ x ∈ l ∧ has_id id x = false).
Proof.
  intros Hr Hrec kept.
  assert (filter_list (id_is_not id) l = Return kept) as Hf.
  { apply filter_list_total. eapply Forall_impl; [exact Hrec|].
    intros x Hx. by apply id_is_not_record. }
  split.
  - intros Hnone. apply (delete_not_found this _ _ l); [done|].
    by apply id_is_not_absent.
  - intros Hsome. rewrite (delete_unfold this id fs l kept Hr Hf).
    rewrite decide_False.
    + split_and!; [done|apply read_after_write|].
      intros x. subst kept. rewrite !list_elem_of_In, filter_In.
      by rewrite negb_true_iff.
    + intros Hlen. apply filter_list_length in Hf as [_ Hall].
      destruct (Hall Hlen) as [_ Hkeep].
      apply Exists_exists in Hsome as (x & Hx & Hid).
      rewrite Forall_forall in Hkeep, Hrec.
      specialize (Hkeep x Hx). rewrite id_is_not_record in Hkeep by auto.
      rewrite Hid in Hkeep. discriminate.
Qed.

Lemma delete_removes_every_match_witness :
  delete db (Some (JNumber 7)) (stored (JArray [JObject ada; JObject bob]))
  = (Return false, stored (JArray [JObject ada; JObject bob]))
  ∧ delete db (Some (JNumber 6))
      (stored (JArray [JObject bob; JObject ada; JObject bob]))
    = (Return true,
       <["db.json":=JSON.stringify 2 (JArray [JObject ada])]>
         (stored (JArray [JObject bob; JObject ada; JObject bob]))).
Proof.
  split.
  - apply (delete_removes_every_match db (Some (JNumber 7)) _
             [JObject ada; JObject bob]).
    + vm_compute. reflexivity.
    + repeat constructor.
    + repeat constructor.
  - apply (delete_removes_every_match db (Some (JNumber 6)) _
             [JObject bob; JObject ada; JObject bob]).
    + vm_compute. reflexivity.
    + repeat constructor.
    + by constructor.
Defined.

(** C7. [query(predicate)] returns the records on which the predicate is
    true, all of them and only them, in the order of the document; and
    whatever the callback and the files, the call leaves the files as they
    were. *)
Theorem query_filters_in_order this (predicate : value → bool) filterFn fs l :
  read this fs = (Return (JArray l), fs) →
  (∀ x, x ∈ l → filterFn x = Return (predicate x)) →
  query this filterFn fs = (Return (JArray (List.filter predicate l)), fs)
  ∧ sublist (List.filter predicate l) l
  ∧ (∀ x, x ∈ List.filter predicate l ↔ x ∈ l ∧ predicate x = true)
  ∧ ∀ callback fs0, (query this callback fs0).2 = fs0.
Proof.
  intros Hr Hp. split_and!.
  - rewrite (query_unfold this filterFn fs l Hr).
    rewrite (filter_list_total filterFn predicate); [done|].
    by apply Forall_forall.
  - clear. induction l as [|x l IH]; [constructor|].
    simpl. destruct (predicate x); by constructor.
  - intros x. by rewrite !list_elem_of_In, filter_In.
  - apply query_frame.
Qed.

Lemma query_filters_in_order_witness :
  query db (λ x, Return (has_id (Some (JNumber 6)) x))
    (stored (JArray [JObject bob; JObject ada; JObject bob]))
  = (Return (JArray [JObject bob; JObject bob]),
     stored (JArray [JObject bob; JObject ada; JObject bob])).
Proof.
  apply (query_filters_in_order db (has_id (Some (JNumber 6)))
           (λ x, Return (has_id (Some (JNumber 6)) x)) _
           [JObject bob; JObject ada; JObject bob]).
  - vm_compute. reflexivity.
  - reflexivity.
Defined.

(** C10. A record is matched by its [id] under strict equality only. The
    callback of [update] accepts a record, and the callback of [delete]
    drops it, only when its [id] is the given id, same type and same value
    (a record without [id] has the id [undefined]). So when no record of the
    document has such an [id], [delete] returns [false] and [update] returns
    [null], and the files stay as they were. *)
Theorem id_match_is_strict this id partialFields fs l :
  read this fs = (Return (JArray l), fs) →
  Forall is_record l →
  (∀ m, id_is id (JObject m) = Return true → m !! "id" = id)
  ∧ (∀ m, id_is_not id (JObject m) = Return false → m !! "id" = id)
  ∧ ((∀ m, JObject m ∈ l → m !! "id" ≠ id) →
     update this id partialFields fs = (Return JNull, fs)
     ∧ delete this id fs = (Return false, fs)).
Proof.
  intros Hr Hrec. split_and!.
  - intros m [= Hm]. by apply strict_equals_eq.
  - intros m [= Hm%negb_false_iff]. by apply strict_equals_eq.
  - intros Hid%has_id_absent; [|done]. split.
    + apply (update_not_found this _ _ _ l); [done|]. by apply id_is_absent.
    + apply (delete_not_found this _ _ l); [done|]. by apply id_is_not_absent.
Qed.

(** The id 5 as a string matches no record whose id is the number 5. *)
Lemma id_match_is_strict_witness :
  update db (Some (JString "5")) (Some (JObject {["name" := JString "eve"]}))
    (stored (JArray [JObject ada]))
  = (Return JNull, stored (JArray [JObject ada]))
  ∧ delete db (Some (JString "5")) (stored (JArray [JObject ada]))
    = (Return false, stored (JArray [JObject ada])).
Proof.
  apply (id_match_is_strict db (Some (JString "5")) _ _ [JObject ada]).
  - vm_compute. reflexivity.
  - repeat constructor.
  - intros m [= ->]%list_elem_of_singleton. discriminate.
Defined.

(** ** The scenario of the specification *)

(** On a fresh path: create [a], create [b], and the document is [[a, b]]
    with two ids; delete [a], and it is [[b]]; update [b] with a new name,
    and it is the one record with the id of [b] and the new name. *)
Example scenario :
  let fs0 := (constructor "db.json" empty_directory).2 in
  let a := {["name" := JString "a"]} in
  let b := {["name" := JString "b"]} in
  let c := {["name" := JString "c"]} in
  let fs2 := (exec db (Create 1001 (Some (JObject b)))
                (exec db (Create 1000 (Some (JObject a))) fs0).2).2 in
  let fs3 := (exec db (Delete (Some (JNumber 1000))) fs2).2 in
  let fs4 := (exec db (Update (Some (JNumber 1001)) (Some (JObject c))) fs3).2 in
  (read db fs2).1
  = Return (JArray [JObject (<["id":=JNumber 1000]> a);
                    JObject (<["id":=JNumber 1001]> b)])
  ∧ (read db fs3).1 = Return (JArray [JObject (<["id":=JNumber 1001]> b)])
  ∧ (read db fs4).1 = Return (JArray [JObject (<["id":=JNumber 1001]> c)]).
Proof. vm_compute. by split_and!. Qed.

(** * Further properties of the class *)

(** X1. A method that throws (the error of a missing file, of a malformed
    text, or a TypeError) has written nothing: the files are as they were
    before the call. *)
Theorem throw_leaves_files this fs e fs' :
  (∀ now record, create this now record fs = (Throw e, fs') → fs' = fs)
  ∧ (∀ id updatedFields,
       update this id updatedFields fs = (Throw e, fs') → fs' = fs)
  ∧ (∀ id, delete this id fs = (Throw e, fs') → fs' = fs)
  ∧ (∀ filterFn, query this filterFn fs = (Throw e, fs') → fs' = fs)
  ∧ (read this fs = (Throw e, fs') → fs' = fs).
Proof.
  split_and!.
  - intros now record H.
    destruct (create_outcome this now record fs) as [[e' He]|(r & t & He)];
      rewrite He in H; by simplify_eq.
  - intros id updatedFields H.
    destruct (update_outcome this id updatedFields fs)
      as [[e' He]|[[r He]|(r & t & He)]]; rewrite He in H; by simplify_eq.
  - intros id H.
    destruct (delete_outcome this id fs)
      as [[e' He]|[[r He]|(r & t & He)]]; rewrite He in H; by simplify_eq.
  - intros filterFn H. rewrite <-(query_frame this filterFn fs). by rewrite H.
  - intros H. rewrite <-(read_frame this fs). by rewrite H.
Qed.

(** X2. [write(data)] followed by [read()] returns [data], whatever JSON
    value it is and whatever the file held before, when the file exists or
    its directory does; when there is neither, [write] throws the error of
    [fs.writeFileSync] and nothing is written. *)
Theorem write_then_read this data fs :
  (is_Some (fs !! filePath this) ∨ filePath this ∈ in_directory fs →
   ∃ fs', (write this data;; read this) fs = (Return data, fs'))
  ∧ (fs !! filePath this = None →
     filePath this ∉ in_directory fs →
     (write this data;; read this) fs = (Throw ENOENT, fs)).
Proof.
  unfold mbind, M_bind. rewrite write_unfold. split.
  - intros Hcan. rewrite bool_decide_eq_true_2 by done.
    eexists. apply read_after_write.
  - intros Hnone Hdir. rewrite bool_decide_eq_false_2; [done|].
    rewrite Hnone. by intros [[? ?]|?].
Qed.

Lemma write_then_read_witness :
  (∃ fs', (write db (JObject ada);; read db) empty_directory
          = (Return (JObject ada), fs'))
  ∧ (write {| filePath := "nodir/db.json" |} (JObject ada);;
     read {| filePath := "nodir/db.json" |}) empty_directory
    = (Throw ENOENT, empty_directory).
Proof.
  split.
  - apply (write_then_read db (JObject ada) empty_directory).
    right. reflexivity.
  - apply (write_then_read {| filePath := "nodir/db.json" |}); [reflexivity|].
    simpl. by intros ?%elem_of_singleton.
Defined.

(** X3. When the file of the store is missing, [read], [create], [update],
    [delete] and [query] all throw the error of [fs.readFileSync], and no
    file is created. *)
Theorem missing_file_throws this fs :
  fs !! filePath this = None →
  read this fs = (Throw ENOENT, fs)
  ∧ (∀ now record, create this now record fs = (Throw ENOENT, fs))
  ∧ (∀ id updatedFields, update this id updatedFields fs = (Throw ENOENT, fs))
  ∧ (∀ id, delete this id fs = (Throw ENOENT, fs))
  ∧ (∀ filterFn, query this filterFn fs = (Throw ENOENT, fs)).
Proof.
  intros Hnone.
  assert (read this fs = (Throw ENOENT, fs)) as Hr.
  { by rewrite read_unfold, Hnone. }
  split; [done|]. by apply read_throw_propagates.
Qed.

Lemma missing_file_throws_witness :
  read db ∅ = (Throw ENOENT, ∅)
  ∧ (∀ now record, create db now record ∅ = (Throw ENOENT, ∅))
  ∧ (∀ id updatedFields, update db id updatedFields ∅ = (Throw ENOENT, ∅))
  ∧ (∀ id, delete db id ∅ = (Throw ENOENT, ∅))
  ∧ (∀ filterFn, query db filterFn ∅ = (Throw ENOENT, ∅)).
Proof. apply (missing_file_throws db ∅). reflexivity. Defined.

(** A number with a fraction or an exponent and a [\u] escape make a text
    that is not plain; a text cut short is plain. *)
Example plain_text_examples :
  plain_text "[1.5]" = false
  ∧ plain_text "[1e3]" = false
  ∧ plain_text (String backslash "u20ac") = false
  ∧ plain_text "[1, 2" = true.
Proof. by split_and!. Qed.

(** X4. When the file holds a text that is not valid JSON, [create],
    [update], [delete] and [query] throw the SyntaxError of [JSON.parse] and
    leave the file as it is: nothing repairs or resets a corrupt file. The
    text is a plain one, with no fraction, exponent or [\u] escape, so
    that the parser of the model refuses it only if [JSON.parse] does. *)
Theorem malformed_file_throws this fs text :
  fs !! filePath this = Some text →
  plain_text text = true →
  JSON.parse text = None →
  (∀ now record, create this now record fs = (Throw SyntaxError, fs))
  ∧ (∀ id updatedFields,
       update this id updatedFields fs = (Throw SyntaxError, fs))
  ∧ (∀ id, delete this id fs = (Throw SyntaxError, fs))
  ∧ (∀ filterFn, query this filterFn fs = (Throw SyntaxError, fs)).
Proof.
  intros Htext _ Hparse. apply read_throw_propagates.
  by rewrite read_unfold, Htext, Hparse.
Qed.

Lemma malformed_file_throws_witness :
  (∀ now record,
     create db now record {["db.json" := "[1, 2"]}
     = (Throw SyntaxError, {["db.json" := "[1, 2"]}))
  ∧ (∀ id updatedFields,
       update db id updatedFields {["db.json" := "[1, 2"]}
       = (Throw SyntaxError, {["db.json" := "[1, 2"]}))
  ∧ (∀ id, delete db id {["db.json" := "[1, 2"]}
           = (Throw SyntaxError, {["db.json" := "[1, 2"]}))
  ∧ (∀ filterFn, query db filterFn {["db.json" := "[1, 2"]}
                 = (Throw SyntaxError, {["db.json" := "[1, 2"]})).
Proof.
  apply (malformed_file_throws db {["db.json" := "[1, 2"]} "[1, 2");
    reflexivity.
Defined.

(** X5. When the file holds valid JSON that is not an array (an object, a
    number, a string, a boolean, [null]), [create], [update], [delete] and
    [query] throw a TypeError, since the value has none of the array
    methods, and the file stays as it is. *)
Theorem non_array_document_throws this fs v :
  read this fs = (Return v, fs) →
  (∀ l, v ≠ JArray l) →
  (∀ now record, create this now record fs = (Throw TypeError, fs))
  ∧ (∀ id updatedFields,
       update this id updatedFields fs = (Throw TypeError, fs))
  ∧ (∀ id, delete this id fs = (Throw TypeError, fs))
  ∧ (∀ filterFn, query this filterFn fs = (Throw TypeError, fs)).
Proof. apply not_array_throws. Qed.

Lemma non_array_document_throws_witness :
  (∀ now record,
     create db now record {["db.json" := "{}"]}
     = (Throw TypeError, {["db.json" := "{}"]}))
  ∧ (∀ id updatedFields,
       update db id updatedFields {["db.json" := "{}"]}
       = (Throw TypeError, {["db.json" := "{}"]}))
  ∧ (∀ id, delete db id {["db.json" := "{}"]}
           = (Throw TypeError, {["db.json" := "{}"]}))
  ∧ (∀ filterFn, query db filterFn {["db.json" := "{}"]}
                 = (Throw TypeError, {["db.json" := "{}"]})).
Proof.
  apply (non_array_document_throws db {["db.json" := "{}"]} (JObject ∅));
    [reflexivity|discriminate].
Defined.

(** ** Elements that are not records *)

Section null_elements.

Lemma id_is_not_cases id x :
  (x = JNull ∧ id_is_not id x = Throw TypeError)
  ∨ ∃ b, id_is_not id x = Return b.
Proof. destruct x; eauto. Qed.

Lemma filter_list_null id l :
  JNull ∈ l → filter_list (id_is_not id) l = Throw TypeError.
Proof.
  induction l as [|x l IH]; [by intros ?%elem_of_nil|].
  intros [<-|Hin]%elem_of_cons; [done|]. simpl.
  destruct (id_is_not_cases id x) as [[-> _]|[b ->]]; [done|].
  by rewrite IH.
Qed.

Lemma findIndex_from_throws (callback : value → completion bool) pre x post e i :
  Forall (λ y, callback y = Return false) pre →
  callback x = Throw e →
  findIndex_from callback (pre ++ x :: post) i = Throw e.
Proof.
  intros Hpre Hx. revert i.
  induction Hpre as [|y pre Hy _ IH]; intros i; simpl.
  - by rewrite Hx.
  - by rewrite Hy, IH.
Qed.

Lemma filter_list_throws (callback : value → completion bool) pre x post e :
  Forall (λ y, ∃ b, callback y = Return b) pre →
  callback x = Throw e →
  filter_list callback (pre ++ x :: post) = Throw e.
Proof.
  intros Hpre Hx.
  induction Hpre as [|y pre [b Hy] _ IH]; simpl.
  - by rewrite Hx.
  - by rewrite Hy, IH.
Qed.

End null_elements.

(** X6. A [null] among the elements of the document breaks the calls that
    look at ids: [delete] reads the [id] of every element and throws a
    TypeError wherever the [null] is; [update] throws when the [null] comes
    before the first record with the given id. Neither writes the file. *)
Theorem null_element_throws this id fs l :
  read this fs = (Return (JArray l), fs) →
  (JNull ∈ l → delete this id fs = (Throw TypeError, fs))
  ∧ (∀ pre post updatedFields,
       l = pre ++ JNull :: post →
       Forall (λ x, id_is id x = Return false) pre →
       update this id updatedFields fs = (Throw TypeError, fs)).
Proof.
  intros Hr. split.
  - intros Hin. unfold delete, mbind, M_bind. rewrite Hr. simpl.
    by rewrite filter_list_null.
  - intros pre post updatedFields -> Hpre.
    unfold update, mbind, M_bind. rewrite Hr. simpl.
    by rewrite (findIndex_from_throws _ pre JNull post TypeError).
Qed.

Lemma null_element_throws_witness :
  delete db (Some (JNumber 5)) (stored (JArray [JObject bob; JNull; JObject ada]))
  = (Throw TypeError, stored (JArray [JObject bob; JNull; JObject ada]))
  ∧ update db (Some (JNumber 5)) None
      (stored (JArray [JObject bob; JNull; JObject ada]))
    = (Throw TypeError, stored (JArray [JObject bob; JNull; JObject ada])).
Proof.
  destruct (null_element_throws db (Some (JNumber 5))
              (stored (JArray [JObject bob; JNull; JObject ada]))
              [JObject bob; JNull; JObject ada]) as [Hd Hu].
  { vm_compute. reflexivity. }
  split.
  - apply Hd. repeat constructor.
  - apply (Hu [JObject bob] [JObject ada]); [reflexivity|].
    repeat constructor.
Defined.

(** ** What every call keeps *)

Section invariants.

Variable this : LocalJSONDB.t.

Lemma filter_list_Forall (callback : value → completion bool)
    (Q : value → Prop) l l' :
  filter_list callback l = Return l' → Forall Q l → Forall Q l'.
Proof.
  revert l'. induction l as [|x l IH]; intros l'; simpl.
  { by intros [= <-]. }
  destruct (callback x) as [b|e]; [|done].
  destruct (filter_list callback l) as [l0|e]; [|done].
  intros [= <-] [Hx Hl]%Forall_cons. specialize (IH l0 eq_refl Hl).
  destruct b; [by constructor|done].
Qed.

(** What the callback kept, it keeps again. *)
Lemma filter_list_kept (callback : value → completion bool) l l' :
  filter_list callback l = Return l' →
  Forall (λ x, callback x = Return true) l'.
Proof.
  revert l'. induction l as [|x l IH]; intros l'; simpl.
  { intros [= <-]. constructor. }
  destruct (callback x) as [b|e] eqn:Hx; [|done].
  destruct (filter_list callback l) as [l0|e]; [|done].
  intros [= <-]. specialize (IH l0 eq_refl).
  destruct b; [by constructor|done].
Qed.

(** A property of the elements that the record made by [create] has, and
    that the merge of [update] keeps, is kept by every call. *)
Section kept_property.

Variable Q : value → Prop.
Hypothesis Q_created :
  ∀ now record, Q (JObject (spread {["id" := JNumber now]} record)).
Hypothesis Q_merged :
  ∀ x updatedFields,
    Q x → Q (JObject (spread (spread ∅ (Some x)) updatedFields)).

Lemma exec_keeps o fs l :
  read this fs = (Return (JArray l), fs) →
  Forall Q l →
  ∃ l', read this (exec this o fs).2 = (Return (JArray l'), (exec this o fs).2)
        ∧ Forall Q l'.
Proof.
  intros Hr Hl.
  destruct (exec_outcome this o fs)
    as [[e He]|[[res He]|(res & text & He)]];
    [rewrite He; by exists l..|].
  destruct o as [now record|id updatedFields|id]; simpl in *.
  - apply create_returns in He as (l0 & Hr0 & -> & Hfs).
    rewrite Hr in Hr0. injection Hr0 as <-.
    rewrite (create_unfold this now record fs l Hr). simpl.
    eexists. split; [apply read_after_write|].
    apply Forall_app. split; [done|]. by constructor.
  - apply update_returns in He
      as (l0 & Hr0 & [(_ & Hfs & Hnone)|(pre & x & post & -> & Hpre & Hx & -> & Hfs)]).
    { rewrite (update_not_found this id updatedFields fs l0 Hr0 Hnone).
      exists l. by rewrite Hr in *. }
    rewrite Hr in Hr0. injection Hr0 as ->.
    rewrite (update_found this id updatedFields fs pre x post Hr Hpre Hx).
    simpl. eexists. split; [apply read_after_write|].
    apply Forall_app in Hl as [Hl1 [Hq Hl2]%Forall_cons].
    apply Forall_app. split; [done|]. constructor; [|done].
    by apply Q_merged.
  - unfold mbind, M_bind in *.
    destruct (delete this id fs) as [[b|e] fs1] eqn:Hd; [|done].
    simpl. apply delete_returns in Hd
      as (l0 & l' & Hr0 & Hf & [(-> & -> & _)|(-> & Hlen & ->)]).
    { by exists l. }
    rewrite Hr in Hr0. injection Hr0 as <-.
    eexists. split; [apply read_after_write|].
    by eapply filter_list_Forall.
Qed.

Lemma run_keeps ops fs l :
  read this fs = (Return (JArray l), fs) →
  Forall Q l →
  Forall (λ st, ∃ l', read this (after st) = (Return (JArray l'), after st)
                      ∧ Forall Q l')
    (run this ops fs).
Proof.
  revert fs l. induction ops as [|o ops IH]; intros fs l Hr Hl; simpl; [done|].
  destruct (exec_keeps o fs l Hr Hl) as (l' & Hr' & Hl').
  constructor; [by exists l'|]. by apply (IH _ l').
Qed.

End kept_property.

(** A call removes no file. *)
Lemma exec_keeps_files o fs path :
  is_Some (fs !! path) → is_Some ((exec this o fs).2 !! path).
Proof.
  intros Hsome.
  destruct (exec_outcome this o fs)
    as [[e ->]|[[res ->]|(res & text & ->)]]; [done..|].
  simpl. destruct (decide (filePath this = path)) as [<-|Hne].
  - rewrite files_lookup_insert_eq. by eexists.
  - by rewrite files_lookup_insert_ne.
Qed.

End invariants.

(** X7. Three invariants of the document, along every sequence of create,
    update and delete calls, whatever their arguments and whether each call
    returns or throws: a file that holds an array holds an array after every
    call; if its elements are all records (objects) they are all records
    after every call; and if every record has an [id] property, every record
    has one after every call. *)
Theorem document_invariants this ops fs l :
  read this fs = (Return (JArray l), fs) →
  Forall (λ st, ∃ l', read this (after st) = (Return (JArray l'), after st))
    (run this ops fs)
  ∧ (Forall is_record l →
     Forall (λ st, ∃ l', read this (after st) = (Return (JArray l'), after st)
                         ∧ Forall is_record l')
       (run this ops fs))
  ∧ (Forall has_id_field l →
     Forall (λ st, ∃ l', read this (after st) = (Return (JArray l'), after st)
                         ∧ Forall has_id_field l')
       (run this ops fs)).
Proof.
  intros Hr. split_and!.
  - eapply Forall_impl.
    + apply (run_keeps this (λ _, True) (λ _ _, I) (λ _ _ _, I) ops fs l Hr).
      by apply Forall_forall.
    + intros st (l' & Hl' & _). by exists l'.
  - apply (run_keeps this is_record); [done|done|exact Hr].
  - apply (run_keeps this has_id_field); [| |exact Hr].
    + intros now record. simpl. unfold spread. rewrite lookup_union.
      destruct (own_props record !! "id"); by rewrite ?lookup_singleton_eq.
    + intros [| | | | |m] u; try done. simpl. intros [v Hv].
      unfold spread. change (own_props (Some (JObject m))) with m.
      rewrite !lookup_union, Hv, lookup_empty.
      by destruct (own_props u !! "id").
Qed.

Lemma document_invariants_witness :
  Forall (λ st, ∃ l', read db (after st) = (Return (JArray l'), after st)
                      ∧ Forall has_id_field l')
    (run db [Create 7 None; Update (Some (JNumber 5)) (Some (JString "x"));
             Delete (Some (JNumber 6))]
       (stored (JArray [JObject ada; JObject bob]))).
Proof.
  apply (document_invariants db _ _ [JObject ada; JObject bob]).
  - vm_compute. reflexivity.
  - repeat constructor; by eexists.
Defined.

(** X8. The class removes no file: along every sequence of create, update
    and delete calls, whether they return or throw, a file that exists
    still exists. *)
Theorem no_file_removed this ops fs path :
  is_Some (fs !! path) →
  is_Some (files_after this ops fs !! path).
Proof.
  revert fs. induction ops as [|o ops IH]; intros fs Hsome; [done|].
  simpl. by apply IH, exec_keeps_files.
Qed.

Lemma no_file_removed_witness :
  is_Some
    (files_after db
       [Delete (Some (JNumber 5)); Delete (Some (JNumber 6)); Update None None]
       (stored (JArray [JObject ada; JObject bob])) !! "db.json").
Proof.
  apply (no_file_removed db _ (stored (JArray [JObject ada; JObject bob]))).
  by eexists.
Defined.

(** ** Calls one after the other *)

Section composition.

Lemma filter_list_app_last (keep : value → bool) callback l x :
  Forall (λ y, callback y = Return (keep y)) l →
  callback x = Return (keep x) →
  filter_list callback (l ++ [x])
  = Return (List.filter keep l ++ (if keep x then [x] else [])).
Proof.
  intros Hl Hx. rewrite (filter_list_total callback keep).
  - by rewrite List.filter_app.
  - apply Forall_app. split; [done|]. by constructor.
Qed.

Lemma filter_all (keep : value → bool) l :
  Forall (λ y, keep y = true) l → List.filter keep l = l.
Proof.
  induction 1 as [|y l Hy _ IH]; [done|]. simpl. by rewrite Hy, IH.
Qed.

End composition.

(** X9. Creating a record and deleting it by its id gives the document
    back: when [fields] has no [id] and no record of the document has the
    id the clock gives, [create(fields)] followed by [delete] of that id
    returns [true] and leaves a file that reads as the document before the
    two calls. *)
Theorem create_then_delete this now fields fs l :
  read this fs = (Return (JArray l), fs) →
  Forall is_record l →
  Forall (λ x, has_id (Some (JNumber now)) x = false) l →
  fields !! "id" = None →
  ∃ fs',
    (create this now (Some (JObject fields));;
     delete this (Some (JNumber now))) fs = (Return true, fs')
    ∧ read this fs' = (Return (JArray l), fs').
Proof.
  intros Hr Hrec Hid Hfields.
  unfold mbind, M_bind. rewrite (create_unfold this now _ fs l Hr).
  set (r := JObject (spread {["id" := JNumber now]} (Some (JObject fields)))).
  set (fs1 := <[filePath this:=JSON.stringify 2 (JArray (l ++ [r]))]> fs).
  assert (has_id (Some (JNumber now)) r = true) as Hr_id.
  { unfold has_id, r, spread. simpl.
    rewrite lookup_union, Hfields, lookup_singleton_eq. simpl.
    apply Z.eqb_refl. }
  assert (filter_list (id_is_not (Some (JNumber now))) (l ++ [r]) = Return l)
    as Hf.
  { rewrite (filter_list_app_last (λ x, negb (has_id (Some (JNumber now)) x))).
    - rewrite Hr_id. simpl. rewrite app_nil_r. f_equal. apply filter_all.
      eapply Forall_impl; [exact Hid|]. by intros x ->.
    - eapply Forall_impl; [exact Hrec|]. intros x Hx.
      by apply id_is_not_record.
    - by apply id_is_not_record. }
  rewrite (delete_unfold this _ fs1 (l ++ [r]) l (read_after_write this _ fs) Hf).
  rewrite decide_False by (rewrite length_app; simpl; lia).
  eexists. split; [done|]. apply read_after_write.
Qed.

Lemma create_then_delete_witness :
  ∃ fs',
    (create db 7 (Some (JObject {["name" := JString "eve"]}));;
     delete db (Some (JNumber 7)))
      (stored (JArray [JObject ada; JObject bob])) = (Return true, fs')
    ∧ read db fs' = (Return (JArray [JObject ada; JObject bob]), fs').
Proof.
  apply (create_then_delete db 7 {["name" := JString "eve"]}
           (stored (JArray [JObject ada; JObject bob]))
           [JObject ada; JObject bob]).
  - vm_compute. reflexivity.
  - repeat constructor.
  - repeat constructor.
  - reflexivity.
Defined.

(** X10. [delete] is idempotent: after a [delete(id)] that returned, a
    second [delete(id)] returns [false] and leaves the files as the first
    left them. *)
Theorem delete_twice this id fs b fs' :
  delete this id fs = (Return b, fs') →
  delete this id fs' = (Return false, fs').
Proof.
  intros Hd. pose proof Hd as Hd'. apply delete_returns in Hd'
    as (l & l' & Hr & Hf & [(-> & -> & _)|(-> & Hlen & ->)]); [done|].
  apply (delete_not_found this id _ l'); [apply read_after_write|].
  by eapply filter_list_kept.
Qed.

Lemma delete_twice_witness :
  delete db (Some (JNumber 6))
    (<["db.json":=JSON.stringify 2 (JArray [JObject ada])]>
       (stored (JArray [JObject bob; JObject ada; JObject bob])))
  = (Return false,
     <["db.json":=JSON.stringify 2 (JArray [JObject ada])]>
       (stored (JArray [JObject bob; JObject ada; JObject bob]))).
Proof.
  apply (delete_twice db (Some (JNumber 6))
           (stored (JArray [JObject bob; JObject ada; JObject bob])) true).
  vm_compute. reflexivity.
Defined.

(** X11. [update] with fields that carry no [id] is idempotent on a
    document of records: the same call made again returns the same result
    and leaves the files as the first call left them. *)
Theorem update_twice this id partialFields fs l :
  read this fs = (Return (JArray l), fs) →
  Forall is_record l →
  partialFields !! "id" = None →
  update this id (Some (JObject partialFields))
    (update this id (Some (JObject partialFields)) fs).2
  = update this id (Some (JObject partialFields)) fs.
Proof.
  intros Hr Hrec Hfields.
  destruct (update_outcome this id (Some (JObject partialFields)) fs)
    as [[e He]|[[res He]|(res & text & He)]];
    [rewrite He; simpl; by rewrite He..|].
  pose proof He as He'. apply update_returns in He'
    as (l0 & Hr0 & [(_ & Hfs & Hnone)|(pre & x & post & -> & Hpre & Hx & Hres & Hfs)]).
  { rewrite (update_not_found this id _ fs l0 Hr0 Hnone). simpl.
    by apply (update_not_found this id _ fs l0). }
  rewrite Hr in Hr0. injection Hr0 as ->.
  apply Forall_app in Hrec as [_ [Hx_rec _]%Forall_cons].
  destruct x as [| | | | |m]; try done.
  assert (res = JObject (partialFields ∪ m)) as ->.
  { rewrite Hres. unfold spread. simpl. by rewrite (right_id_L ∅ (∪)). }
  assert (id_is id (JObject (partialFields ∪ m)) = Return true) as Hres_id.
  { unfold id_is in *. simpl in *.
    by rewrite lookup_union, Hfields, (left_id_L None union). }
  rewrite He. simpl. rewrite Hfs.
  rewrite (update_found this id _ _ pre (JObject (partialFields ∪ m)) post
             (read_after_write this _ fs) Hpre Hres_id).
  simpl. unfold spread. simpl.
  rewrite (right_id_L ∅ (∪)), (assoc_L (∪)), (idemp_L (∪)).
  by rewrite files_insert_insert_eq.
Qed.

Lemma update_twice_witness :
  update db (Some (JNumber 6)) (Some (JObject {["name" := JString "eve"]}))
    (update db (Some (JNumber 6)) (Some (JObject {["name" := JString "eve"]}))
       (stored (JArray [JObject ada; JObject bob]))).2
  = update db (Some (JNumber 6)) (Some (JObject {["name" := JString "eve"]}))
      (stored (JArray [JObject ada; JObject bob])).
Proof.
  apply (update_twice db (Some (JNumber 6)) {["name" := JString "eve"]}
           (stored (JArray [JObject ada; JObject bob]))
           [JObject ada; JObject bob]).
  - vm_compute. reflexivity.
  - repeat constructor.
  - reflexivity.
Defined.

(** X12. [update] with fields that carry no [id] changes no id: on a
    document of records, the ids of the records it leaves are, position by
    position, the ids of the records it found. *)
Theorem update_keeps_ids this id partialFields fs l res fs' :
  read this fs = (Return (JArray l), fs) →
  Forall is_record l →
  partialFields !! "id" = None →
  update this id (Some (JObject partialFields)) fs = (Return res, fs') →
  ∃ l', read this fs' = (Return (JArray l'), fs')
        ∧ get_id <$> l' = get_id <$> l.
Proof.
  intros Hr Hrec Hfields Hu. apply update_returns in Hu
    as (l0 & Hr0 & [(_ & -> & _)|(pre & x & post & -> & Hpre & Hx & -> & ->)]).
  { by exists l. }
  rewrite Hr in Hr0. injection Hr0 as ->.
  eexists. split; [apply read_after_write|].
  apply Forall_app in Hrec as [_ [Hx_rec _]%Forall_cons].
  destruct x as [| | | | |m]; try done.
  rewrite !fmap_app, !fmap_cons. do 2 f_equal. simpl. f_equal.
  unfold spread. simpl.
  by rewrite (right_id_L ∅ (∪)), lookup_union, Hfields, (left_id_L None union).
Qed.

Lemma update_keeps_ids_witness :
  ∃ l', read db
          (update db (Some (JNumber 6))
             (Some (JObject {["name" := JString "eve"]}))
             (stored (JArray [JObject ada; JObject bob]))).2
        = (Return (JArray l'),
           (update db (Some (JNumber 6))
              (Some (JObject {["name" := JString "eve"]}))
              (stored (JArray [JObject ada; JObject bob]))).2)
        ∧ get_id <$> l' = get_id <$> [JObject ada; JObject bob].
Proof.
  apply (update_keeps_ids db (Some (JNumber 6)) {["name" := JString "eve"]}
           (stored (JArray [JObject ada; JObject bob]))
           [JObject ada; JObject bob]
           (JObject (<["name" := JString "eve"]> bob))).
  - vm_compute. reflexivity.
  - repeat constructor.
  - reflexivity.
  - vm_compute. reflexivity.
Defined.

(** X13. [update] called with fields that have no property of their own
    (no argument, [null], a number, a boolean, an empty object) changes
    nothing in the document: it returns the first record with the given id
    as it is, and the file it writes reads as the document before. *)
Theorem update_without_fields this id updatedFields fs pre r post :
  read this fs = (Return (JArray (pre ++ JObject r :: post)), fs) →
  Forall (λ x, id_is id x = Return false) pre →
  id_is id (JObject r) = Return true →
  own_props updatedFields = ∅ →
  ∃ fs',
    update this id updatedFields fs = (Return (JObject r), fs')
    ∧ read this fs' = (Return (JArray (pre ++ JObject r :: post)), fs').
Proof.
  intros Hr Hpre Hx Hempty.
  rewrite (update_found this id updatedFields fs pre (JObject r) post Hr Hpre Hx).
  unfold spread. rewrite Hempty. simpl.
  rewrite (right_id_L ∅ (∪)), (left_id_L ∅ (∪)).
  eexists. split; [done|]. apply read_after_write.
Qed.

Lemma update_without_fields_witness :
  ∃ fs',
    update db (Some (JNumber 6)) None
      (stored (JArray [JObject ada; JObject bob])) = (Return (JObject bob), fs')
    ∧ read db fs' = (Return (JArray ([JObject ada] ++ JObject bob :: [])), fs').
Proof.
  apply (update_without_fields db (Some (JNumber 6)) None
           (stored (JArray [JObject ada; JObject bob])) [JObject ada] bob []).
  - vm_compute. reflexivity.
  - repeat constructor.
  - reflexivity.
  - reflexivity.
Defined.

(** X14. The constructor is idempotent: constructing a store on a path a
    second time ends as the first time did, returning the same store or
    throwing the same error, and leaves the files as the first call left
    them; and a constructor that throws has written nothing. *)
Theorem constructor_twice path fs :
  constructor path (constructor path fs).2 = constructor path fs
  ∧ (∀ e fs', constructor path fs = (Throw e, fs') → fs' = fs).
Proof.
  rewrite (constructor_unfold path fs).
  destruct (decide (is_Some (fs !! path))) as [Hsome|Hnone].
  { rewrite bool_decide_eq_true_2 by done. simpl.
    rewrite constructor_unfold, bool_decide_eq_true_2 by done. by split. }
  rewrite bool_decide_eq_false_2 by done.
  destruct (decide (path ∈ in_directory fs)) as [Hdir|Hdir].
  - rewrite bool_decide_eq_true_2 by done. simpl.
    rewrite constructor_unfold, bool_decide_eq_true_2; [by split|].
    rewrite files_lookup_insert_eq. by eexists.
  - rewrite bool_decide_eq_false_2 by done. simpl.
    rewrite constructor_unfold, !bool_decide_eq_false_2 by done.
    split; [done|]. by intros e fs' [= _ <-].
Qed.

(** X15. An exception of the callback ends [query] with that exception:
    when the callback answers on the records before some record and throws
    on that one, [query] throws what the callback threw, and the files are
    as they were. *)
Theorem query_callback_throws this filterFn fs pre x post e :
  read this fs = (Return (JArray (pre ++ x :: post)), fs) →
  Forall (λ y, ∃ b, filterFn y = Return b) pre →
  filterFn x = Throw e →
  query this filterFn fs = (Throw e, fs).
Proof.
  intros Hr Hpre Hx. rewrite (query_unfold this filterFn fs _ Hr).
  by rewrite (filter_list_throws filterFn pre x post e).
Qed.

Lemma query_callback_throws_witness :
  query db (λ x, match x with JNull => Throw TypeError | _ => Return true end)
    (stored (JArray [JObject ada; JNull; JObject bob]))
  = (Throw TypeError, stored (JArray [JObject ada; JNull; JObject bob])).
Proof.
  apply (query_callback_throws db _ _ [JObject ada] JNull [JObject bob]).
  - vm_compute. reflexivity.
  - repeat constructor. by exists true.
  - reflexivity.
Defined.

(** X16. Creates append in call order: after a sequence of [create] calls
    on a file that holds an array, the file reads as that array followed by
    the records created, one per call, in the order of the calls; nothing
    that was there is changed or moved. *)
Theorem creates_append this cs fs l :
  read this fs = (Return (JArray l), fs) →
  read this (files_after this (create_call <$> cs) fs)
  = (Return (JArray (l ++ (created <$> cs))),
     files_after this (create_call <$> cs) fs).
Proof.
  revert fs l. induction cs as [|c cs IH]; intros fs l Hr; simpl.
  { by rewrite app_nil_r. }
  unfold files_after in *. simpl.
  rewrite (create_unfold this c.1 (Some (JObject c.2)) fs l Hr). simpl.
  rewrite (IH _ (l ++ [created c])); [|apply read_after_write].
  by rewrite <-(assoc_L (++)).
Qed.

Lemma creates_append_witness :
  read db
    (files_after db
       (create_call <$> [(7, {["name" := JString "eve"]}); (8, ∅)])
       (stored (JArray [JObject ada])))
  = (Return (JArray ([JObject ada]
                     ++ (created <$> [(7, {["name" := JString "eve"]});
                                      (8, ∅)]))),
     files_after db
       (create_call <$> [(7, {["name" := JString "eve"]}); (8, ∅)])
       (stored (JArray [JObject ada]))).
Proof.
  apply (creates_append db [(7, {["name" := JString "eve"]}); (8, ∅)]
           (stored (JArray [JObject ada])) [JObject ada]).
  vm_compute. reflexivity.
Defined.

(** X17. [create] takes any argument and any array: called with no
    argument, [null], a number or a boolean, on a file that holds an array
    (of records or not), it returns the record whose only property is the
    [id] the clock gives, and the file then reads as the array followed by
    that record. *)
Theorem create_without_fields this now record fs l :
  read this fs = (Return (JArray l), fs) →
  own_props record = ∅ →
  ∃ fs',
    create this now record fs
    = (Return (JObject {["id" := JNumber now]}), fs')
    ∧ read this fs'
      = (Return (JArray (l ++ [JObject {["id" := JNumber now]}])), fs').
Proof.
  intros Hr Hempty. rewrite (create_unfold this now record fs l Hr).
  unfold spread. rewrite Hempty, (left_id_L ∅ (∪)).
  eexists. split; [done|]. apply read_after_write.
Qed.

Lemma create_without_fields_witness :
  ∃ fs',
    create db 7 None (stored (JArray [JNull; JObject ada]))
    = (Return (JObject {["id" := JNumber 7]}), fs')
    ∧ read db fs'
      = (Return (JArray ([JNull; JObject ada] ++ [JObject {["id" := JNumber 7]}])),
         fs').
Proof.
  apply (create_without_fields db 7 None
           (stored (JArray [JNull; JObject ada])) [JNull; JObject ada]).
  - vm_compute. reflexivity.
  - reflexivity.
Defined.

Lemma id_is_of_id_is_not id x :
  id_is_not id x = Return true → id_is id x = Return false.
Proof.
  unfold id_is, id_is_not. destruct (get_id x) as [y|e]; [|done].
  intros [= Hy%negb_true_iff]. by rewrite Hy.
Qed.

(** X18. A deleted id is gone for [update] too: after a [delete(id)] that
    returned, [update] with that id returns [null] and leaves the files as
    the delete left them. *)
Theorem delete_then_update this id updatedFields fs b fs' :
  delete this id fs = (Return b, fs') →
  update this id updatedFields fs' = (Return JNull, fs').
Proof.
  intros (l & l' & Hr & Hf & Hcases)%delete_returns.
  assert (Forall (λ x, id_is id x = Return false) l') as Hnone.
  { eapply Forall_impl; [by eapply filter_list_kept|].
    intros x. apply id_is_of_id_is_not. }
  destruct Hcases as [(_ & -> & Hl)|(_ & _ & ->)].
  - subst l'. by apply (update_not_found this id _ fs l).
  - apply (update_not_found this id _ _ l'); [apply read_after_write|done].
Qed.

Lemma delete_then_update_witness :
  update db (Some (JNumber 6)) (Some (JObject {["name" := JString "eve"]}))
    (<["db.json":=JSON.stringify 2 (JArray [JObject ada])]>
       (stored (JArray [JObject bob; JObject ada; JObject bob])))
  = (Return JNull,
     <["db.json":=JSON.stringify 2 (JArray [JObject ada])]>
       (stored (JArray [JObject bob; JObject ada; JObject bob]))).
Proof.
  apply (delete_then_update db (Some (JNumber 6)) _
           (stored (JArray [JObject bob; JObject ada; JObject bob])) true).
  vm_compute. reflexivity.
Defined.
